(** * Config: depth-controlled flattening and plugin resolution

    A shallow embedding of [src/config/config.py] (class [Config]):
    [Config.__set_property] projects the parsed YAML document into the
    attributes of the configuration object, and [Config.__load_plugins]
    walks the [plugins] attribute, checks every plugin name against the
    plugin source and replaces it by the loaded plugin object.

    Modelling decisions.
    - A parsed document is a tree of Python objects ([value]).  Mapping
      keys are strings (a qualified path is built with string
      concatenation); a Python [dict] is an association list in insertion
      order whose keys are pairwise distinct ([wf_value]).
    - Python integers are unbounded: depths are [Z], [sys.maxsize] is the
      constant [2^63 - 1].
    - The attribute table of the object ([setattr(self, name, v)]) is a
      finite map from attribute names to values.
    - An exception is a value of [exn].  [__load_plugins] returns nothing
      and works by mutating its argument: its model returns the argument
      as the call leaves it, together with how the call ended, so that what
      a caller sees after catching the exception can be stated.
    - The plugin source is a record with the two operations the code calls,
      both without effect on the source; every call is recorded in a trace
      of [call]s.  What [load_plugin] itself may raise is not modelled.
    - The loop of [__load_plugins] rebinds only the key it is visiting, so
      the bindings it has not visited yet are those the dict had when the
      loop started: the loop runs over these, next to the current state of
      the dict.
    - The document is a tree: objects shared through YAML anchors are
      outside the model.
    - Attribute names that Python reserves on every object ([__class__],
      [__dict__] and the like) are outside the model: the attribute table
      treats every name alike. *)

From Stdlib Require Import ZArith Floats.SpecFloat.
From stdpp Require Import base option list strings gmap fin_maps.

Set Warnings "-register-all".

Local Open Scope Z_scope.
Local Open Scope string_scope.
Local Open Scope list_scope.

(** ** Python objects *)

(** The object a plugin source hands back for a plugin name (a module
    object); only its identity matters. *)
Inductive handle : Type :=
| ModuleObj (ident : positive).

(** What [yaml.safe_load] builds, plus loaded plugin objects. *)
Inductive value : Type :=
| VNone
| VBool (b : bool)
| VInt (z : Z)
| VFloat (f : spec_float)
| VStr (s : string)
| VList (l : list value)
| VDict (d : list (string * value))
| VHandle (h : handle).

Abbreviation items := (list (string * value)).

(** [isinstance(v, dict)], [isinstance(v, list)], [isinstance(v, str)]. *)
Definition is_dict (v : value) : bool :=
  match v with VDict _ => true | _ => false end.

Definition is_list (v : value) : bool :=
  match v with VList _ => true | _ => false end.

Definition is_str (v : value) : bool :=
  match v with VStr _ => true | _ => false end.

(** Python truth value of an object ([bool(v)]). *)
Definition truthy (v : value) : bool :=
  match v with
  | VNone => false
  | VBool b => b
  | VInt z => negb (Z.eqb z 0)
  | VFloat (S754_zero _) => false
  | VFloat _ => true
  | VStr s => negb (String.eqb s "")
  | VList l => match l with [] => false | _ => true end
  | VDict d => match d with [] => false | _ => true end
  | VHandle _ => true
  end.

(** The exceptions the two methods can raise.  [AttributeError] is what
    [.items()] raises on an object that is not a dict; [ValueError] carries
    the object that was not found among the plugins. *)
Inductive exn : Type :=
| AttributeError
| ValueError (plugin : value).

Inductive outcome : Type :=
| Returned
| Raised (e : exn).

(** ** Config.__set_property *)

Definition sys_maxsize : Z := 2 ^ 63 - 1.

(** [prefix + name if prefix == '' else prefix + '_' + name] *)
Definition full_name (prefix name : string) : string :=
  if String.eqb prefix "" then prefix +:+ name
  else prefix +:+ "_" +:+ name.

(** [self.fields_depth.get(full_name) if full_name in self.fields_depth
     else sys.maxsize] *)
Definition lookup_depth (fields_depth : gmap string Z) (path : string) : Z :=
  match fields_depth !! path with
  | Some d => d
  | None => sys_maxsize
  end.

Section SetProperty.
(** The attribute store of [self] and the effect of [setattr]. *)
Context {Self : Type}.
Variable setattr : string → value → Self → Self.
Variable fields_depth : gmap string Z.

Section SetLoop.
(** The method itself, for the recursive call of line 79. *)
Variable rec : value → string → option Z → Self → Self + exn.
Variable prefix : string.

(** [for name, value in properties.items(): ...].  The variable [depth] is a
    local of the call: once assigned in an iteration it keeps its value for
    the remaining iterations. *)
Fixpoint set_items (its : items) (depth : option Z) (self : Self)
    {struct its} : Self + exn :=
  match its with
  | [] => inl self
  | (name, v) :: its' =>
      let full := full_name prefix name in
      let dep :=
        match depth with
        | None => lookup_depth fields_depth full
        | Some n => n
        end in
      if is_dict v && Z.ltb 1 dep then
        match rec v full (Some (dep - 1)) self with
        | inl self' => set_items its' (Some dep) self'
        | inr e => inr e
        end
      else set_items its' (Some dep) (setattr full v self)
  end.
End SetLoop.

Fixpoint set_property_in (properties : value) (prefix : string)
    (depth : option Z) (self : Self) {struct properties} : Self + exn :=
  if negb (truthy properties) then inl self   (* properties or {} *)
  else
    match properties with
    | VDict d => set_items set_property_in prefix d depth self
    | _ => inr AttributeError   (* no method [items] *)
    end.
End SetProperty.

(** The object's attribute table. *)
Abbreviation namespace := (gmap string value).

Definition set_property (fields_depth : gmap string Z) (properties : value)
    (prefix : string) (depth : option Z) (self : namespace)
  : namespace + exn :=
  set_property_in (λ name v ns, <[name := v]> ns)
    fields_depth properties prefix depth self.

(** [self.__set_property(yaml.safe_load(...))] on an object without
    attributes. *)
Definition flatten (fields_depth : gmap string Z) (tree : value)
  : namespace + exn :=
  set_property fields_depth tree "" None ∅.

(** ** Config.__load_plugins *)

(** The plugin source built in [Config.__pre_load_plugins]: the names it
    lists and the object it loads for a name. *)
Record plugin_source : Type := PluginSource {
  list_plugins : list string;
  load_plugin : string → handle
}.

(** A call into the plugin source. *)
Inductive call : Type :=
| ListPlugins
| LoadPlugin (name : string).

(** [plugin in all_plugins], for a list of names: only a [str] is equal to
    one of them; the name found is returned. *)
Definition known (all_plugins : list string) (plugin : value)
  : option string :=
  match plugin with
  | VStr s => if bool_decide (s ∈ all_plugins) then Some s else None
  | _ => None
  end.

(** [d[k] = v] on a dict: the binding of an existing key is replaced where
    it stands, a new key is appended. *)
Fixpoint dict_set (k : string) (v : value) (d : items) : items :=
  match d with
  | [] => [(k, v)]
  | (k', v') :: d' =>
      if String.eqb k' k then (k', v) :: d' else (k', v') :: dict_set k v d'
  end.

Section LoadPlugins.
Variable plugin_sources : plugin_source.

(** [for plugin in plus: ...] of lines 143 to 146, with the list
    [plugin_objs] built so far. *)
Fixpoint load_each (all_plugins : list string) (plus : list value)
    (plugin_objs : list value) (log : list call)
  : list value * list call * outcome :=
  match plus with
  | [] => (plugin_objs, log, Returned)
  | plugin :: plus' =>
      match known all_plugins plugin with
      | None => (plugin_objs, log, Raised (ValueError plugin))
      | Some name =>
          load_each all_plugins plus'
            (plugin_objs ++ [VHandle (load_plugin plugin_sources name)])
            (log ++ [LoadPlugin name])
      end
  end.

Section LoadLoop.
(** The method itself, for the recursive call of line 154. *)
Variable rec : value → value * list call * outcome.
Variable all_plugins : list string.

(** [for parse_type, plus in plugins.items(): ...].  [its] are the bindings
    still to visit, [plugins] is the dict as the writes so far have left it.
    A nested dict is mutated through the recursive call: the binding of
    [parse_type] then holds the dict as that call left it, also when the
    call raised. *)
Fixpoint load_items (its : items) (plugins : items) (log : list call)
    {struct its} : items * list call * outcome :=
  match its with
  | [] => (plugins, log, Returned)
  | (parse_type, plus) :: its' =>
      match plus with
      | VList l =>
          match load_each all_plugins l [] log with
          | (plugin_objs, log', Returned) =>
              load_items its'
                (dict_set parse_type (VList plugin_objs) plugins) log'
          | (_, log', Raised e) => (plugins, log', Raised e)
          end
      | VStr _ =>
          match known all_plugins plus with
          | None => (plugins, log, Raised (ValueError plus))
          | Some name =>
              load_items its'
                (dict_set parse_type
                   (VHandle (load_plugin plugin_sources name)) plugins)
                (log ++ [LoadPlugin name])
          end
      | VDict _ =>
          match rec plus with
          | (plus', log', Returned) =>
              load_items its' (dict_set parse_type plus' plugins)
                (log ++ log')
          | (plus', log', Raised e) =>
              (dict_set parse_type plus' plugins, log ++ log', Raised e)
          end
      | _ => load_items its' plugins log
      end
  end.
End LoadLoop.

(** The result is the object [plugins] as the call leaves it, the calls
    made into the plugin source, and how the call ended. *)
Fixpoint load_plugins (plugins : value) {struct plugins}
  : value * list call * outcome :=
  let all_plugins := list_plugins plugin_sources in
  if truthy plugins then
    match plugins with
    | VDict d =>
        let '(d', log, out) :=
          load_items load_plugins all_plugins d d [ListPlugins] in
        (VDict d', log, out)
    | _ => (plugins, [ListPlugins], Raised AttributeError)
    end
  else (plugins, [ListPlugins], Returned).
End LoadPlugins.

(** The three components of a run of [load_plugins]. *)
Definition spec_after (r : value * list call * outcome) : value := r.1.1.
Definition calls (r : value * list call * outcome) : list call := r.1.2.
Definition outcome_of (r : value * list call * outcome) : outcome := r.2.

(** The names loaded during a run, in the order of the calls. *)
Definition loads (log : list call) : list string :=
  omap (λ c, match c with LoadPlugin n => Some n | ListPlugins => None end)
    log.

(** ** Reference notions used in the statements *)

(** A Python dict has pairwise distinct keys, at every level. *)
Fixpoint wf_value (v : value) : bool :=
  match v with
  | VList l => forallb wf_value l
  | VDict d =>
      bool_decide (NoDup d.*1) && forallb (λ '(_, x), wf_value x) d
  | _ => true
  end.

(** The objects the walk over a plugin spec compares with the plugin names,
    in the order of the walk: a string bound in a mapping, the elements of
    a sequence bound in a mapping, and the same inside nested mappings. *)
Fixpoint leaves (spec : value) : list value :=
  match spec with
  | VDict d =>
      concat (map (λ '(_, plus),
                match plus with
                | VStr _ => [plus]
                | VList l => l
                | VDict _ => leaves plus
                | _ => []
                end) d)
  | _ => []
  end.

Definition is_known (src : plugin_source) (plugin : value) : bool :=
  bool_decide (is_Some (known (list_plugins src) plugin)).

(** The first leaf of the walk that is not a plugin name. *)
Definition first_unknown (src : plugin_source) (spec : value)
  : option value :=
  find (λ x, negb (is_known src x)) (leaves spec).

(** The names of the leaves that precede the first unknown one. *)
Fixpoint known_prefix (src : plugin_source) (l : list value) : list string :=
  match l with
  | [] => []
  | x :: l' =>
      match known (list_plugins src) x with
      | Some n => n :: known_prefix src l'
      | None => []
      end
  end.

(** The plugin spec with every name replaced by the object loaded for it and
    everything else as it is: same keys in the same order, same nesting,
    sequences of the same length in the same order. *)
Definition resolved_name (src : plugin_source) (plugin : value) : value :=
  match plugin with
  | VStr s => VHandle (load_plugin src s)
  | _ => plugin
  end.

Fixpoint resolved (src : plugin_source) (spec : value) : value :=
  match spec with
  | VDict d =>
      VDict (map (λ '(k, plus),
                (k, match plus with
                    | VStr _ => resolved_name src plus
                    | VList l => VList (map (resolved_name src) l)
                    | VDict _ => resolved src plus
                    | _ => plus
                    end)) d)
  | _ => spec
  end.

(** The writes [setattr(self, name, v)] of a call of [__set_property], in
    the order they happen: the same method, run on a store that records
    every write. *)
Definition write_trace (fields_depth : gmap string Z) (properties : value)
    (prefix : string) (depth : option Z) : list (string * value) + exn :=
  set_property_in (λ name v tr, tr ++ [(name, v)])
    fields_depth properties prefix depth [].

(** The value of the last write to [path] in a trace. *)
Definition last_write (path : string) (tr : list (string * value))
  : option value :=
  snd <$> last (filter (λ kv, kv.1 = path) tr).

(** Replaying a trace of writes on an attribute table. *)
Definition replay (tr : list (string * value)) (ns : namespace) : namespace :=
  foldl (λ ns kv, <[kv.1 := kv.2]> ns) ns tr.

(** Following the documentation: the depth of every top-level key is looked
    up for that key (fields without an entry are flattened to the deepest
    level), so each top-level binding is flattened by a call of its own. *)
Definition flatten_per_key (fields_depth : gmap string Z) (tree : items)
  : namespace + exn :=
  foldl (λ acc kv,
           match acc with
           | inl ns => set_property fields_depth (VDict [kv]) "" None ns
           | inr e => inr e
           end) (inl ∅) tree.

(** The leaves of one binding, and the binding after resolution. *)
Definition entry_leaves (plus : value) : list value :=
  match plus with
  | VStr _ => [plus]
  | VList l => l
  | VDict _ => leaves plus
  | _ => []
  end.

Definition resolved_entry (src : plugin_source) (plus : value) : value :=
  match plus with
  | VStr _ => resolved_name src plus
  | VList l => VList (map (resolved_name src) l)
  | VDict _ => resolved src plus
  | _ => plus
  end.

(** Every leaf of the walk is a plugin name. *)
Definition all_known (src : plugin_source) (spec : value) : bool :=
  forallb (is_known src) (leaves spec).

(** How a walk over the leaves [l] ends: it raises on the first leaf that
    is not a plugin name. *)
Definition expected_outcome (src : plugin_source) (l : list value)
  : outcome :=
  match find (λ x, negb (is_known src x)) l with
  | Some x => Raised (ValueError x)
  | None => Returned
  end.

(** A bound object that is neither a string, a sequence nor a mapping. *)
Definition is_ignored (plus : value) : bool :=
  negb (is_str plus || is_list plus || is_dict plus).

(** One iteration of the loop of [load_plugins], seen from the binding it
    visits: the object that replaces [plus] (if any), the calls made, and
    how the iteration ends. *)
Definition visit (src : plugin_source) (plus : value)
  : option value * list call * outcome :=
  match plus with
  | VList l =>
      match load_each src (list_plugins src) l [] [] with
      | (plugin_objs, log, Returned) => (Some (VList plugin_objs), log, Returned)
      | (_, log, Raised e) => (None, log, Raised e)
      end
  | VStr _ =>
      match known (list_plugins src) plus with
      | None => (None, [], Raised (ValueError plus))
      | Some name =>
          (Some (VHandle (load_plugin src name)), [LoadPlugin name], Returned)
      end
  | VDict _ =>
      let '(plus', log, out) := load_plugins src plus in
      (Some plus', log, out)
  | _ => (None, [], Returned)
  end.

(** The loop of [load_plugins] on the bindings [its] of a dict, started on
    that dict with an empty trace. *)
Definition walk (src : plugin_source) (its : items)
  : items * list call * outcome :=
  load_items src (load_plugins src) (list_plugins src) its its [].

(** The statement proved of every object by induction for the outcome of
    a run: how a run on a mapping ends and what it loads, read off its
    leaves. *)
Definition outcome_by_leaves (src : plugin_source) (v : value) : Prop :=
  is_dict v = true →
  outcome_of (load_plugins src v) = expected_outcome src (leaves v)
  ∧ loads (calls (load_plugins src v)) = known_prefix src (leaves v).

(** The statement proved of every object by induction for the result of a
    run: on a well-formed mapping whose leaves are all plugin names it
    returns and leaves the resolved mapping. *)
Definition resolves (src : plugin_source) (v : value) : Prop :=
  is_dict v = true → wf_value v = true → all_known src v = true →
  spec_after (load_plugins src v) = resolved src v
  ∧ outcome_of (load_plugins src v) = Returned.

(** ** Inputs used in the examples *)

(** The depth table of [Config.__init__]. *)
Definition config_fields_depth : gmap string Z := {[ "plugins" := 1 ]}.

(** A plugin source that knows [p1], [p2] and [p3]. *)
Definition three_plugins : plugin_source :=
  PluginSource ["p1"; "p2"; "p3"] (λ name, ModuleObj (encode name)).

(** A plugin source that knows only [p1]. *)
Definition one_plugin : plugin_source :=
  PluginSource ["p1"] (λ name, ModuleObj (encode name)).


Definition plugins_then_db : items :=
  [("plugins", VDict [("parse", VStr "p1")]);
   ("db", VDict [("host", VStr "localhost")])].

Definition db_then_plugins : items :=
  [("db", VDict [("host", VStr "localhost")]);
   ("plugins", VDict [("parse", VStr "p1")])].

(** ** The rest of the class *)

(** *** Config.get_timestamp *)

(** A [str] is held as its UTF-8 text, one byte per character of the
    string.  [len] counts code points: the bytes of the text that are not
    continuation bytes (those of the form 10xxxxxx). *)
Definition is_continuation (a : Ascii.ascii) : bool :=
  match a with
  | Ascii.Ascii _ _ _ _ _ _ b6 b7 => b7 && negb b6
  end.

Fixpoint code_points (s : string) : nat :=
  match s with
  | EmptyString => O
  | String a s' =>
      if is_continuation a then code_points s' else S (code_points s')
  end.

Section GetTimestamp.
(** [int(time.mktime(time.strptime(time_str, format)))]: the seconds since
    the epoch of a time string read in a format, in local time, or the
    exception raised when the string does not fit the format.  It belongs
    to the [time] module and is a parameter here. *)
Variable epoch_seconds : string → string → Z + exn.

(** [time_str] is [None] or a string; [len(time_str)] is the number of
    its code points. *)
Definition get_timestamp (time_str : option string) (mill : bool)
  : Z + exn :=
  let tp :=
    match time_str with
    | None => inl 0
    | Some s =>
        if negb (String.eqb s "") then
          if Nat.eqb (code_points s) 10 then epoch_seconds "%Y-%m-%d" s
          else if Nat.eqb (code_points s) 19
               then epoch_seconds "%Y-%m-%d %H:%M:%S" s
               else inr AttributeError
        else inl 0
    end in
  match tp with
  | inl tp => inl (if mill then tp * 1000 else tp)
  | inr e => inr e
  end.

(** *** Config.__load_args and Config.__logger_config *)

(** What [argparse] hands back for the four options, each [None] or a
    string. *)
Record cli_args : Type := CliArgs {
  arg_start_time : option string;
  arg_end_time : option string;
  arg_log_path : option string;
  arg_upload : option string
}.

Definition str_or_none (o : option string) : value :=
  match o with
  | Some s => VStr s
  | None => VNone
  end.

(** Lines 96 to 99, on the arguments parsed in line 95. *)
Definition load_args (args : cli_args) (self : namespace)
  : namespace + exn :=
  match get_timestamp (arg_start_time args) true with
  | inr e => inr e
  | inl start_time =>
      let self := <["start_time" := VInt start_time]> self in
      match get_timestamp (arg_end_time args) true with
      | inr e => inr e
      | inl end_time =>
          let self := <["end_time" := VInt end_time]> self in
          let self := <["log_path" := str_or_none (arg_log_path args)]> self in
          inl (<["upload_path" := str_or_none (arg_upload args)]> self)
      end
  end.

(** [self.log_path and self.logger.add(self.log_path)].  The attribute
    [logger] is not in the table as long as it is the logger object of line
    30; once the document has rebound it to one of its values, that value
    has no method [add].  The call of [add] on the logger object is taken
    to return. *)
Definition logger_config (self : namespace) : namespace + exn :=
  if truthy (default VNone (self !! "log_path")) then
    match self !! "logger" with
    | Some _ => inr AttributeError
    | None => inl self
    end
  else inl self.

(** *** Config.__pre_load_plugins and Config.__init__ *)

(** The attributes of line 34 that are values of the model. *)
Definition init_attrs : namespace := {[ "plugins" := VNone ]}.

(** [self.__load_plugins(self.plugins, plugin_sources)]: the dict bound to
    [plugins] is mutated where it is, so the attribute holds it as the call
    left it. *)
Definition pre_load_plugins (src : plugin_source) (self : namespace)
  : namespace * list call * outcome :=
  let '(plugins, log, out) :=
    load_plugins src (default VNone (self !! "plugins")) in
  (<["plugins" := plugins]> self, log, out).

(** Lines 35 to 37: the document is flattened into the object, then the
    arguments are stored, then the logger is configured. *)
Definition prepare (args : cli_args) (document : value)
  : namespace + exn :=
  match set_property config_fields_depth document "" None init_attrs with
  | inr e => inr e
  | inl self =>
      match load_args args self with
      | inr e => inr e
      | inl self => logger_config self
      end
  end.

(** [Config(yaml_path)], on the document read from [yaml_path], the parsed
    arguments and the plugin source of the plugin directory: the attributes
    of the object, the calls into the plugin source and how the
    construction ended.  Reading the file, parsing the arguments and
    setting up the plugin source are taken to return.  A document key that
    rebinds one of the methods of the object makes the later call of that
    method fail; such keys are outside the model. *)
Definition init (args : cli_args) (document : value) (src : plugin_source)
  : namespace * list call * outcome :=
  match prepare args document with
  | inr e => (init_attrs, [], Raised e)
  | inl self => pre_load_plugins src self
  end.
End GetTimestamp.

(** ** Further reference notions *)

(** [s.startswith(p)] *)
Fixpoint starts_with (p s : string) : bool :=
  match p, s with
  | EmptyString, _ => true
  | String a p', String b s' => Ascii.eqb a b && starts_with p' s'
  | String _ _, EmptyString => false
  end.

(** A path below [prefix]: it starts with [prefix] and the separator. *)
Definition under (prefix path : string) : bool :=
  starts_with (prefix +:+ "_") path.

(** The bindings of a mapping, each at its qualified path. *)
Definition top_bindings (prefix : string) (d : items)
  : list (string * value) :=
  map (λ kv, (full_name prefix kv.1, kv.2)) d.



(** The depth a call of [__set_property] on a mapping works with: the one
    it is given, or the one it looks up for its first key. *)
Definition call_depth (fields_depth : gmap string Z) (prefix : string)
    (depth : option Z) (d : items) : Z :=
  match depth, d with
  | Some n, _ => n
  | None, (k, _) :: _ => lookup_depth fields_depth (full_name prefix k)
  | None, [] => 0
  end.

(** The objects bound to [k] in a dict are all mappings. *)
Definition only_mappings_at (k : string) (d : items) : bool :=
  forallb (λ kv, negb (String.eqb kv.1 k) || is_dict kv.2) d.

(** A time reader for the examples: it reads nothing and answers with a
    fixed number of seconds. *)
Definition fixed_seconds (fmt s : string) : Z + exn := inl 1700000000.

Definition no_args : cli_args := CliArgs None None None None.

(** * Proofs *)

(** ** Induction on nested objects *)

Lemma value_nested_ind (P : value → Prop) :
  P VNone →
  (∀ b, P (VBool b)) →
  (∀ z, P (VInt z)) →
  (∀ f, P (VFloat f)) →
  (∀ s, P (VStr s)) →
  (∀ l, Forall P l → P (VList l)) →
  (∀ d, Forall (λ kv, P kv.2) d → P (VDict d)) →
  (∀ h, P (VHandle h)) →
  ∀ v, P v.
Proof.
  intros HN HB HI HF HS HL HD HH.
  fix IH 1.
  intros [ | b | z | f | s | l | d | h ];
    [ exact HN | apply HB | apply HI | apply HF | apply HS | | | apply HH ].
  - apply HL. induction l as [|x l IHl]; constructor; [apply IH | exact IHl].
  - apply HD. induction d as [|[k x] d IHd]; constructor; [apply IH | exact IHd].
Qed.

(** ** Flattening *)

Section SetPropertyFacts.
Context {Self : Type}.
Variable setattr : string → value → Self → Self.
Variable fields_depth : gmap string Z.

Lemma set_property_in_dict d prefix depth self :
  set_property_in setattr fields_depth (VDict d) prefix depth self
  = set_items setattr fields_depth (set_property_in setattr fields_depth)
      prefix d depth self.
Proof. by destruct d. Qed.

Lemma set_property_in_not_dict v prefix depth self :
  is_dict v = false →
  set_property_in setattr fields_depth v prefix depth self
  = if truthy v then inr AttributeError else inl self.
Proof. destruct v; try done; intros _; cbn -[truthy]; by destruct (truthy _). Qed.


(** A call on a dict returns: only the root can lack [items]. *)
Lemma set_property_in_returns v prefix depth self :
  is_dict v = true →
  ∃ self', set_property_in setattr fields_depth v prefix depth self
           = inl self'.
Proof.
  revert prefix depth self.
  induction v as [ | | | | | | d IHd | ] using value_nested_ind; try done.
  intros prefix depth self _. rewrite set_property_in_dict.
  revert depth self.
  induction IHd as [|[k v] d Hv _ IH]; intros depth self; [by eexists|].
  simpl in *. destruct (is_dict v) eqn:Hdict; simpl.
  - case_match; [|apply IH].
    destruct (Hv (full_name prefix k) (Some
      (match depth with Some n => n | None => lookup_depth fields_depth (full_name prefix k) end - 1))
      self eq_refl) as [self' ->].
    apply IH.
  - apply IH.
Qed.

End SetPropertyFacts.

(** Running the method on a store is running it on the trace of its writes
    and replaying that trace on the store. *)
Lemma set_property_in_trace {Self} (setattr : string → value → Self → Self)
    fields_depth s0 v prefix depth tr :
  set_property_in setattr fields_depth v prefix depth
    (foldl (λ s kv, setattr kv.1 kv.2 s) s0 tr)
  = match set_property_in (λ name x t, t ++ [(name, x)]) fields_depth
            v prefix depth tr with
    | inl tr' => inl (foldl (λ s kv, setattr kv.1 kv.2 s) s0 tr')
    | inr e => inr e
    end.
Proof.
  revert prefix depth tr.
  induction v as [ | | | | | | d IHd | ] using value_nested_ind;
    intros prefix depth tr;
    try (rewrite !set_property_in_not_dict by done; by case_match).
  rewrite !set_property_in_dict. revert depth tr.
  induction IHd as [|[k v] d Hv _ IH]; intros depth tr; [done|].
  simpl in *. destruct (is_dict v && _).
  - rewrite Hv.
    destruct (set_property_in _ fields_depth v _ _ tr); [apply IH | done].
  - rewrite <- IH. by rewrite foldl_app.
Qed.

Lemma last_write_snoc path tr k v :
  last_write path (tr ++ [(k, v)])
  = if decide (k = path) then Some v else last_write path tr.
Proof.
  unfold last_write. rewrite filter_app, filter_cons, filter_nil. simpl.
  case_decide.
  - by rewrite last_snoc.
  - by rewrite app_nil_r.
Qed.

Lemma replay_snoc tr k v ns :
  replay (tr ++ [(k, v)]) ns = <[k := v]> (replay tr ns).
Proof. unfold replay. by rewrite foldl_app. Qed.

(** After a replay a path holds its last write, or what it held before. *)
Lemma replay_lookup tr (ns : gmap string value) path :
  replay tr ns !! path
  = match last_write path tr with
    | Some v => Some v
    | None => ns !! path
    end.
Proof.
  induction tr as [|[k v] tr IH] using rev_ind; [done|].
  rewrite replay_snoc, last_write_snoc. case_decide as Hk.
  - subst. by rewrite lookup_insert_eq.
  - by rewrite lookup_insert_ne.
Qed.

Lemma set_property_replay fields_depth v prefix depth ns :
  set_property fields_depth v prefix depth ns
  = match write_trace fields_depth v prefix depth with
    | inl tr => inl (replay tr ns)
    | inr e => inr e
    end.
Proof.
  unfold set_property, write_trace, replay.
  apply (set_property_in_trace _ fields_depth ns v prefix depth []).
Qed.

(** Below the top level no depth is looked up: a call with an assigned
    depth does not depend on the depth table. *)
Lemma set_property_no_fresh_lookup {Self}
    (setattr : string → value → Self → Self) fd fd' v prefix n self :
  set_property_in setattr fd v prefix (Some n) self
  = set_property_in setattr fd' v prefix (Some n) self.
Proof.
  revert prefix n self.
  induction v as [ | | | | | | d IHd | ] using value_nested_ind;
    intros prefix n self; try done.
  rewrite !set_property_in_dict. revert n self.
  induction IHd as [|[k v] d Hv _ IH]; intros n self; [done|].
  simpl in *. destruct (is_dict v && _).
  - rewrite Hv.
    destruct (set_property_in setattr fd' v _ _ self); [apply IH | done].
  - apply IH.
Qed.

Lemma string_length_append (a b : string) :
  String.length (a +:+ b) = (String.length a + String.length b)%nat.
Proof. induction a as [|c a IH]; [done|]. simpl. by rewrite IH. Qed.

Lemma full_name_longer prefix name :
  prefix ≠ "" →
  (String.length prefix < String.length (full_name prefix name))%nat.
Proof.
  intros Hne. unfold full_name.
  apply String.eqb_neq in Hne. rewrite Hne.
  rewrite !string_length_append. simpl. lia.
Qed.

(** Under a non-empty prefix every write goes to a path longer than the
    prefix. *)
Lemma write_trace_longer fd v prefix depth tr0 tr :
  prefix ≠ "" →
  set_property_in (λ name x t, t ++ [(name, x)]) fd v prefix depth tr0
  = inl tr →
  ∃ new, tr = tr0 ++ new
         ∧ Forall (λ kv, (String.length prefix < String.length kv.1)%nat) new.
Proof.
  revert prefix depth tr0 tr.
  induction v as [ | | | | | | d IHd | ] using value_nested_ind;
    intros prefix depth tr0 tr Hne;
    try (rewrite set_property_in_not_dict by done; case_match; [done|];
         intros [= <-]; exists []; by rewrite app_nil_r).
  rewrite set_property_in_dict. revert depth tr0 tr.
  induction IHd as [|[k v] d Hv _ IH]; intros depth tr0 tr.
  - intros [= <-]. exists []. by rewrite app_nil_r.
  - simpl in *. pose proof (full_name_longer prefix k Hne) as Hlen.
    destruct (is_dict v && _).
    + destruct (set_property_in _ fd v _ _ tr0) as [tr1|] eqn:Hrec; [|done].
      intros Hrest.
      assert (Hne' : full_name prefix k ≠ "").
      { intros Heq. rewrite Heq in Hlen. simpl in Hlen. lia. }
      destruct (Hv _ _ _ _ Hne' Hrec) as (new1 & -> & Hnew1).
      destruct (IH _ _ _ Hrest) as (new2 & -> & Hnew2).
      exists (new1 ++ new2). split; [by rewrite app_assoc|].
      apply Forall_app. split; [|done].
      eapply Forall_impl; [exact Hnew1|]. simpl. intros; lia.
    + intros Hrest. destruct (IH _ _ _ Hrest) as (new2 & -> & Hnew2).
      exists ((full_name prefix k, v) :: new2).
      split; [by rewrite <- app_assoc|]. by constructor.
Qed.

(** Flattening under a non-empty prefix leaves the prefix itself as it
    was: the recursion into a mapping does not bind the path of the
    mapping. *)
Lemma set_property_keeps_prefix fd v prefix depth (ns ns' : gmap string value) :
  prefix ≠ "" →
  set_property fd v prefix depth ns = inl ns' →
  ns' !! prefix = ns !! prefix.
Proof.
  intros Hne. rewrite set_property_replay. unfold write_trace.
  destruct (set_property_in _ fd v prefix depth []) as [tr|] eqn:Htr; [|done].
  intros [= <-]. rewrite replay_lookup.
  destruct (write_trace_longer _ _ _ _ _ _ Hne Htr) as (new & -> & Hnew).
  simpl. unfold last_write.
  replace (filter (λ kv : string * value, kv.1 = prefix) new) with (@nil (string * value)); [done|].
  symmetry. clear Htr. induction Hnew as [|[k x] new Hk _ IH]; [done|].
  rewrite filter_cons_False; [exact IH|]. simpl in *. intros ->. lia.
Qed.


(** At the top level the depth looked up for the first key is the depth of
    the whole loop. *)
Lemma set_property_first_key_depth fields_depth k v rest self :
  set_property fields_depth (VDict ((k, v) :: rest)) "" None self
  = set_property fields_depth (VDict ((k, v) :: rest)) ""
      (Some (lookup_depth fields_depth (full_name "" k))) self.
Proof. reflexivity. Qed.

(** C1, evaluated on the code: with the depth table of [Config.__init__] and
    a document that binds [plugins] before [db], the depth 1 looked up for
    [plugins] is also used for [db], which is bound whole, whereas a lookup
    for each top-level key binds [db_host]; with [db] first, the unlimited
    depth of [db] is also used for [plugins], which is flattened although
    the table gives it depth 1. *)
Theorem flatten_depth_carries_over :
  flatten config_fields_depth (VDict plugins_then_db)
  = inl {[ "plugins" := VDict [("parse", VStr "p1")];
           "db" := VDict [("host", VStr "localhost")] ]}
  ∧ flatten_per_key config_fields_depth plugins_then_db
    = inl {[ "plugins" := VDict [("parse", VStr "p1")];
             "db_host" := VStr "localhost" ]}
  ∧ flatten config_fields_depth (VDict db_then_plugins)
    = inl {[ "db_host" := VStr "localhost";
             "plugins_parse" := VStr "p1" ]}.
Proof. repeat split; by vm_compute. Qed.


(** C5 as stated fails: a null root is not a mapping, and flattening it
    returns, leaving the object without attributes. *)
Lemma flatten_null_root_returns :
  is_dict VNone = false ∧ flatten config_fields_depth VNone = inl ∅.
Proof. by split. Qed.

(** C5, amended: a root that is not a mapping makes flattening raise
    (AttributeError) when it is truthy -- a non-empty sequence or string, a
    non-zero number, [True] -- and is taken for the empty mapping when it is
    falsy -- null, an empty sequence or string, zero, [False]: flattening
    then returns and leaves the attributes of the object as they were. *)
Theorem flatten_non_mapping_root fields_depth tree (self : gmap string value) :
  is_dict tree = false →
  set_property fields_depth tree "" None self
  = if truthy tree then inr AttributeError else inl self.
Proof. intros H. by apply set_property_in_not_dict. Qed.

Lemma flatten_non_mapping_root_witness :
  is_dict (VList [VStr "a"]) = false
  ∧ flatten config_fields_depth (VList [VStr "a"])
    = if truthy (VList [VStr "a"]) then inr AttributeError else inl ∅.
Proof.
  split; [reflexivity|].
  apply (flatten_non_mapping_root config_fields_depth (VList [VStr "a"]) ∅).
  reflexivity.
Defined.


(** ** Plugin resolution *)

Section LoadPluginsFacts.
Variable src : plugin_source.

Lemma load_plugins_dict d :
  load_plugins src (VDict d)
  = let '(d', log, out) :=
      load_items src (load_plugins src) (list_plugins src) d d [ListPlugins]
    in (VDict d', log, out).
Proof. by destruct d. Qed.

Lemma load_plugins_not_dict v :
  is_dict v = false →
  load_plugins src v
  = (v, [ListPlugins],
     if truthy v then Raised AttributeError else Returned).
Proof.
  destruct v; try done; intros _; cbn -[truthy]; by destruct (truthy _).
Qed.

Lemma expected_outcome_app l1 l2 :
  expected_outcome src (l1 ++ l2)
  = match expected_outcome src l1 with
    | Returned => expected_outcome src l2
    | Raised e => Raised e
    end.
Proof.
  unfold expected_outcome.
  induction l1 as [|x l1 IH]; [done|]. simpl.
  by destruct (negb (is_known src x)).
Qed.

Lemma is_known_spec x :
  is_known src x = true ↔ ∃ n, known (list_plugins src) x = Some n.
Proof. unfold is_known. rewrite bool_decide_eq_true. by unfold is_Some. Qed.

Lemma is_known_Some x n :
  known (list_plugins src) x = Some n → is_known src x = true.
Proof. intros. apply is_known_spec. eauto. Qed.

Lemma is_known_None x :
  known (list_plugins src) x = None → is_known src x = false.
Proof.
  intros H. apply not_true_is_false. rewrite is_known_spec.
  intros [n Hn]. congruence.
Qed.

Lemma known_prefix_app l1 l2 :
  known_prefix src (l1 ++ l2)
  = match expected_outcome src l1 with
    | Returned => known_prefix src l1 ++ known_prefix src l2
    | Raised _ => known_prefix src l1
    end.
Proof.
  unfold expected_outcome.
  induction l1 as [|x l1 IH]; [done|]. simpl.
  destruct (known (list_plugins src) x) as [n|] eqn:Hx.
  - rewrite (is_known_Some _ _ Hx). simpl. rewrite IH.
    by destruct (find _ l1).
  - by rewrite (is_known_None _ Hx).
Qed.

(** The inner loop: what it appends to the list and to the trace, and how
    it ends, are determined by the elements up to the first unknown one. *)
Lemma load_each_spec l objs log :
  load_each src (list_plugins src) l objs log
  = (objs ++ map (λ n, VHandle (load_plugin src n)) (known_prefix src l),
     log ++ map LoadPlugin (known_prefix src l),
     expected_outcome src l).
Proof.
  revert objs log. unfold expected_outcome.
  induction l as [|x l IH]; intros objs log; simpl.
  - by rewrite !app_nil_r.
  - destruct (known (list_plugins src) x) as [n|] eqn:Hx.
    + rewrite (is_known_Some _ _ Hx), IH. simpl.
      by rewrite <- !app_assoc.
    + rewrite (is_known_None _ Hx). simpl. by rewrite !app_nil_r.
Qed.

Lemma loads_app l1 l2 : loads (l1 ++ l2) = loads l1 ++ loads l2.
Proof. apply omap_app. Qed.

Lemma loads_load_plugin ns : loads (map LoadPlugin ns) = ns.
Proof.
  induction ns as [|n ns IH]; [done|].
  change (loads (map LoadPlugin (n :: ns)))
    with (n :: loads (map LoadPlugin ns)).
  by rewrite IH.
Qed.

End LoadPluginsFacts.

Lemma dict_set_middle k v x (done rest : items) :
  k ∉ done.*1 →
  dict_set k v (done ++ (k, x) :: rest) = done ++ (k, v) :: rest.
Proof.
  induction done as [|[k' x'] done IH]; simpl; intros Hk.
  - by rewrite String.eqb_refl.
  - apply not_elem_of_cons in Hk as [Hne Hk].
    destruct (String.eqb_spec k' k) as [->|_]; [done|].
    by rewrite IH.
Qed.

Section WalkFacts.
Variable src : plugin_source.

(** One iteration of the loop, in terms of [visit]. *)
Lemma load_items_cons k plus its st log :
  load_items src (load_plugins src) (list_plugins src)
    ((k, plus) :: its) st log
  = let st' := match (visit src plus).1.1 with
               | Some v => dict_set k v st
               | None => st
               end in
    match (visit src plus).2 with
    | Returned =>
        load_items src (load_plugins src) (list_plugins src) its st'
          (log ++ (visit src plus).1.2)
    | Raised e => (st', log ++ (visit src plus).1.2, Raised e)
    end.
Proof.
  destruct plus as [ | | | | s | l | d | ]; cbn [load_items visit];
    try (simpl; by rewrite ?app_nil_r).
  - simpl. destruct (bool_decide (s ∈ list_plugins src)); simpl;
      by rewrite ?app_nil_r.
  - rewrite !load_each_spec. simpl.
    by destruct (expected_outcome src l).
  - by destruct (load_plugins src (VDict d)) as [[plus' lg] [|e]].
Qed.

(** The loop only touches the bindings it visits: bindings in front of them
    and an initial trace are carried along. *)
Lemma load_items_frame its (done : items) log :
  NoDup (done ++ its).*1 →
  load_items src (load_plugins src) (list_plugins src) its (done ++ its) log
  = ((done ++ (walk src its).1.1), log ++ (walk src its).1.2,
     (walk src its).2).
Proof.
  unfold walk. revert done log.
  induction its as [|[k plus] its IH]; intros done log Hnd.
  - simpl. by rewrite !app_nil_r.
  - rewrite !load_items_cons. cbn zeta.
    set (w := visit src plus).
    set (x := default plus w.1.1).
    assert (Hk : k ∉ done.*1).
    { rewrite fmap_app in Hnd. apply NoDup_app in Hnd as (_ & Hd & _).
      intros Hin. apply (Hd _ Hin). simpl. left. }
    assert (Hst : match w.1.1 with
                  | Some v => dict_set k v (done ++ (k, plus) :: its)
                  | None => done ++ (k, plus) :: its
                  end = (done ++ [(k, x)]) ++ its).
    { rewrite <- app_assoc. simpl. unfold x.
      destruct w.1.1; simpl; [by apply dict_set_middle | done]. }
    assert (Hst' : match w.1.1 with
                   | Some v => dict_set k v ((k, plus) :: its)
                   | None => (k, plus) :: its
                   end = [(k, x)] ++ its).
    { unfold x. destruct w.1.1; simpl; [by rewrite String.eqb_refl | done]. }
    rewrite Hst, Hst'.
    assert (Hnd1 : NoDup ((done ++ [(k, x)]) ++ its).*1).
    { rewrite <- app_assoc. simpl.
      by rewrite fmap_app in Hnd |- *. }
    assert (Hnd2 : NoDup ([(k, x)] ++ its).*1).
    { rewrite fmap_app in Hnd. apply NoDup_app in Hnd as (_ & _ & Hnd).
      exact Hnd. }
    destruct w.2.
    + rewrite (IH _ _ Hnd1), (IH _ _ Hnd2). simpl.
      by rewrite <- !app_assoc.
    + simpl. by rewrite <- !app_assoc.
Qed.

(** The walk over a dict, binding by binding. *)
Lemma walk_cons k plus its :
  NoDup ((k, plus) :: its).*1 →
  walk src ((k, plus) :: its)
  = match (visit src plus).2 with
    | Returned =>
        ((k, default plus (visit src plus).1.1) :: (walk src its).1.1,
         (visit src plus).1.2 ++ (walk src its).1.2,
         (walk src its).2)
    | Raised e =>
        ((k, default plus (visit src plus).1.1) :: its,
         (visit src plus).1.2, Raised e)
    end.
Proof.
  intros Hnd. unfold walk at 1. rewrite load_items_cons. cbn zeta.
  assert (Hst : match (visit src plus).1.1 with
                | Some v => dict_set k v ((k, plus) :: its)
                | None => (k, plus) :: its
                end = [(k, default plus (visit src plus).1.1)] ++ its).
  { destruct (visit src plus).1.1; simpl;
      [by rewrite String.eqb_refl | done]. }
  rewrite Hst. destruct (visit src plus).2; [|done].
  by rewrite load_items_frame.
Qed.

Lemma walk_nil : walk src [] = ([], [], Returned).
Proof. done. Qed.

Lemma load_plugins_walk d :
  NoDup d.*1 →
  load_plugins src (VDict d)
  = (VDict (walk src d).1.1, ListPlugins :: (walk src d).1.2,
     (walk src d).2).
Proof.
  intros Hnd. rewrite load_plugins_dict.
  pose proof (load_items_frame d [] [ListPlugins] Hnd) as H.
  cbn [app] in H. by rewrite H.
Qed.

End WalkFacts.

Lemma leaves_cons k plus its :
  leaves (VDict ((k, plus) :: its)) = entry_leaves plus ++ leaves (VDict its).
Proof. by destruct plus. Qed.

Lemma resolved_dict src d :
  resolved src (VDict d)
  = VDict (map (λ kv, (kv.1, resolved_entry src kv.2)) d).
Proof.
  simpl. f_equal. apply map_ext. by intros [k []].
Qed.

Section OutcomeFacts.
Variable src : plugin_source.

Lemma visit_outcome plus :
  outcome_by_leaves src plus →
  (visit src plus).2 = expected_outcome src (entry_leaves plus)
  ∧ loads (visit src plus).1.2 = known_prefix src (entry_leaves plus).
Proof.
  intros Hplus. destruct plus as [ | | | | s | l | d | ]; try done.
  - unfold visit, expected_outcome, is_known. simpl.
    by destruct (bool_decide (s ∈ list_plugins src)).
  - unfold visit. rewrite load_each_spec. simpl.
    destruct (expected_outcome src l); simpl; by rewrite loads_load_plugin.
  - destruct (Hplus eq_refl) as [Hout Hloads].
    unfold visit, outcome_of, calls in *. simpl entry_leaves.
    by destruct (load_plugins src (VDict d)) as [[plus' lg] out].
Qed.

Lemma load_items_outcome its st log :
  Forall (λ kv, outcome_by_leaves src kv.2) its →
  (load_items src (load_plugins src) (list_plugins src) its st log).2
  = expected_outcome src (leaves (VDict its))
  ∧ loads (load_items src (load_plugins src) (list_plugins src)
             its st log).1.2
    = loads log ++ known_prefix src (leaves (VDict its)).
Proof.
  intros Hits. revert st log.
  induction Hits as [|[k plus] its Hplus _ IH]; intros st log.
  - simpl. by rewrite app_nil_r.
  - rewrite load_items_cons, leaves_cons, expected_outcome_app,
      known_prefix_app. cbn zeta.
    destruct (visit_outcome plus Hplus) as [<- <-].
    destruct (visit src plus).2.
    + destruct (IH (match (visit src plus).1.1 with
                    | Some v => dict_set k v st
                    | None => st
                    end) (log ++ (visit src plus).1.2)) as [-> ->].
      by rewrite loads_app, <- app_assoc.
    + simpl. by rewrite loads_app.
Qed.

Lemma load_plugins_outcome v : outcome_by_leaves src v.
Proof.
  induction v as [ | | | | | | d IHd | ] using value_nested_ind; try done.
  intros _. unfold outcome_of, calls. rewrite load_plugins_dict.
  destruct (load_items_outcome d d [ListPlugins] IHd) as [Hout Hloads].
  by destruct (load_items _ _ _ d d _) as [[d' lg] out].
Qed.

End OutcomeFacts.

(** C3 as stated fails: on the bare sequence [[p1; missing]], which is a
    plugin spec that is not a mapping, the run raises AttributeError, which
    names no plugin, before any name is compared with the names of the
    plugin source, although [missing] is not one of them. *)
Lemma load_plugins_bare_sequence_unknown :
  known (list_plugins one_plugin) (VStr "missing") = None
  ∧ load_plugins one_plugin (VList [VStr "p1"; VStr "missing"])
    = (VList [VStr "p1"; VStr "missing"], [ListPlugins],
       Raised AttributeError).
Proof. by split. Qed.

(** C3, amended: a run on a plugin spec that is a mapping raises
    (ValueError, carrying the offending leaf) exactly when some leaf of the
    walk is not among the names of the plugin source, and then for the
    first such leaf in the order of the walk; otherwise it returns.  The
    names loaded are exactly the leaves in front of that first unknown
    leaf: nothing is loaded after it, and an unknown leaf is never passed
    over.  So the sequence [[p1; missing]] bound in a mapping raises for
    [missing] after [p1] was loaded. *)
Theorem load_plugins_fail_fast src d :
  outcome_of (load_plugins src (VDict d))
  = match first_unknown src (VDict d) with
    | Some x => Raised (ValueError x)
    | None => Returned
    end
  ∧ loads (calls (load_plugins src (VDict d)))
    = known_prefix src (leaves (VDict d))
  ∧ load_plugins one_plugin (VDict [("k", VList [VStr "p1"; VStr "missing"])])
    = (VDict [("k", VList [VStr "p1"; VStr "missing"])],
       [ListPlugins; LoadPlugin "p1"],
       Raised (ValueError (VStr "missing"))).
Proof.
  destruct (load_plugins_outcome src (VDict d) eq_refl) as [Hout Hloads].
  split; [exact Hout|]. split; [exact Hloads|]. by vm_compute.
Qed.

Section ResolveFacts.
Variable src : plugin_source.

Lemma known_is_str x n : known (list_plugins src) x = Some n → x = VStr n.
Proof.
  destruct x; try done. simpl. case_bool_decide; congruence.
Qed.

Lemma all_known_outcome l :
  forallb (is_known src) l = true → expected_outcome src l = Returned.
Proof.
  unfold expected_outcome. induction l as [|x l IH]; [done|]. simpl.
  intros [-> Hl]%andb_prop. simpl. auto.
Qed.

Lemma known_prefix_resolved l :
  forallb (is_known src) l = true →
  map (λ n, VHandle (load_plugin src n)) (known_prefix src l)
  = map (resolved_name src) l.
Proof.
  induction l as [|x l IH]; [done|]. simpl.
  intros [Hx Hl]%andb_prop. apply is_known_spec in Hx as [n Hn].
  rewrite Hn. simpl. rewrite (known_is_str _ _ Hn). simpl.
  by rewrite IH.
Qed.

Lemma visit_resolves plus :
  resolves src plus → wf_value plus = true →
  forallb (is_known src) (entry_leaves plus) = true →
  (visit src plus).2 = Returned
  ∧ default plus (visit src plus).1.1 = resolved_entry src plus.
Proof.
  intros Hplus Hwf Hknown.
  destruct plus as [ | | | | s | l | d | ]; try done.
  - simpl in Hknown. apply andb_prop in Hknown as [Hs _].
    apply is_known_spec in Hs as [n Hn].
    unfold visit. rewrite Hn. pose proof (known_is_str _ _ Hn) as Heq.
    by simplify_eq.
  - unfold visit. rewrite load_each_spec. simpl in Hknown.
    rewrite (all_known_outcome _ Hknown). simpl.
    by rewrite known_prefix_resolved.
  - destruct (Hplus eq_refl Hwf Hknown) as [Hafter Hout].
    unfold visit, spec_after, outcome_of in *.
    by destruct (load_plugins src (VDict d)) as [[plus' lg] out].
Qed.

Lemma walk_resolves its :
  NoDup its.*1 →
  Forall (λ kv, resolves src kv.2) its →
  forallb (λ '(_, x), wf_value x) its = true →
  forallb (is_known src) (leaves (VDict its)) = true →
  (walk src its).1.1 = map (λ kv, (kv.1, resolved_entry src kv.2)) its
  ∧ (walk src its).2 = Returned.
Proof.
  intros Hnd Hits. revert Hnd.
  induction Hits as [|[k plus] its Hplus _ IH]; intros Hnd Hwf Hknown;
    [done|].
  rewrite leaves_cons, forallb_app in Hknown.
  apply andb_prop in Hknown as [Hk1 Hk2].
  simpl in Hwf. apply andb_prop in Hwf as [Hw1 Hw2].
  rewrite walk_cons by done.
  destruct (visit_resolves plus Hplus Hw1 Hk1) as [-> ->].
  simpl in Hnd. apply NoDup_cons in Hnd as [_ Hnd].
  destruct (IH Hnd Hw2 Hk2) as [-> ->]. done.
Qed.

Lemma load_plugins_resolves v : resolves src v.
Proof.
  induction v as [ | | | | | | d IHd | ] using value_nested_ind; try done.
  intros _ Hwf Hknown. simpl in Hwf.
  apply andb_prop in Hwf as [Hnd%bool_decide_eq_true Hwf].
  rewrite load_plugins_walk, resolved_dict by done.
  unfold spec_after, outcome_of. cbn [fst snd].
  by destruct (walk_resolves d Hnd IHd Hwf Hknown) as [-> ->].
Qed.

(** A binding that is not visited as a plugin leaves the walk as it is
    without it. *)
Lemma walk_ignores pre k v post :
  is_ignored v = true →
  NoDup (pre ++ (k, v) :: post).*1 →
  ∃ pre' post',
    length pre' = length pre
    ∧ (walk src (pre ++ post)).1.1 = pre' ++ post'
    ∧ walk src (pre ++ (k, v) :: post)
      = (pre' ++ (k, v) :: post',
         (walk src (pre ++ post)).1.2, (walk src (pre ++ post)).2).
Proof.
  intros Hv. induction pre as [|[k0 p0] pre IH]; intros Hnd.
  - exists [], (walk src post).1.1. split; [done|]. split; [done|].
    simpl app. rewrite walk_cons by done.
    by destruct v.
  - assert (Hnd' : NoDup (pre ++ (k, v) :: post).*1).
    { simpl in Hnd. by apply NoDup_cons in Hnd as [_ Hnd]. }
    assert (Hnd0 : NoDup (((k0, p0) :: pre) ++ post).*1).
    { simpl in *. rewrite fmap_app in *. simpl in *.
      apply NoDup_cons in Hnd as [Hk0 Hnd].
      apply NoDup_cons. split.
      - intros Hin. apply Hk0. apply elem_of_app in Hin as [?|?];
          apply elem_of_app; [by left | right; by right].
      - apply NoDup_app in Hnd as (H1 & H2 & H3%NoDup_cons).
        apply NoDup_app. split; [done|]. split; [|tauto].
        intros x Hx Hx'. apply (H2 x Hx). by right. }
    destruct (IH Hnd') as (pre' & post' & Hlen & Hw & Hw').
    simpl app. rewrite !walk_cons by done.
    destruct (visit src p0).2 eqn:Hout.
    + exists ((k0, default p0 (visit src p0).1.1) :: pre'), post'.
      simpl. rewrite Hlen, Hw, Hw'. done.
    + exists ((k0, default p0 (visit src p0).1.1) :: pre), post.
      done.
Qed.

End ResolveFacts.

Lemma wf_value_dict d :
  wf_value (VDict d) = true →
  NoDup d.*1 ∧ forallb (λ '(_, x), wf_value x) d = true.
Proof.
  simpl. intros [Hnd%bool_decide_eq_true Hwf]%andb_prop. done.
Qed.

(** When a binding in front of an unknown name has been resolved, the run
    raises and leaves those bindings resolved. *)
Lemma walk_partial src pre k n post :
  NoDup (pre ++ (k, VStr n) :: post).*1 →
  forallb (λ '(_, x), wf_value x) pre = true →
  forallb (is_known src) (leaves (VDict pre)) = true →
  is_known src (VStr n) = false →
  walk src (pre ++ (k, VStr n) :: post)
  = (map (λ kv, (kv.1, resolved_entry src kv.2)) pre ++ (k, VStr n) :: post,
     (walk src pre).1.2, Raised (ValueError (VStr n))).
Proof.
  intros Hnd Hwf Hknown Hn.
  induction pre as [|[k0 p0] pre IH].
  - simpl app. rewrite walk_cons by done.
    unfold is_known in Hn. apply bool_decide_eq_false in Hn.
    unfold visit. destruct (known (list_plugins src) (VStr n)) eqn:Hk; [|done].
    destruct Hn. by eexists.
  - assert (Hnd0 : NoDup ((k0, p0) :: pre).*1).
    { simpl in Hnd |- *. apply NoDup_cons in Hnd as [Hk0 Hnd].
      rewrite fmap_app in *. apply NoDup_app in Hnd as (H1 & _ & _).
      apply NoDup_cons. split; [|done].
      intros Hin. apply Hk0. apply elem_of_app. by left. }
    simpl app. rewrite (walk_cons src k0 p0 pre Hnd0).
    rewrite (walk_cons src k0 p0 (pre ++ (k, VStr n) :: post) Hnd).
    rewrite leaves_cons, forallb_app in Hknown.
    apply andb_prop in Hknown as [Hk1 Hk2].
    simpl in Hwf. apply andb_prop in Hwf as [Hw1 Hw2].
    destruct (visit_resolves src p0 (load_plugins_resolves src p0) Hw1 Hk1)
      as [-> ->].
    simpl in Hnd. apply NoDup_cons in Hnd as [_ Hnd].
    by rewrite (IH Hnd Hw2 Hk2).
Qed.

(** A run that meets an unknown name bound in a well-formed mapping, after
    bindings whose leaves are all known, raises for that name and leaves
    the bindings in front of it resolved. *)
Lemma load_plugins_partial src pre k n post :
  wf_value (VDict (pre ++ (k, VStr n) :: post)) = true →
  all_known src (VDict pre) = true →
  is_known src (VStr n) = false →
  spec_after (load_plugins src (VDict (pre ++ (k, VStr n) :: post)))
  = VDict (map (λ kv, (kv.1, resolved_entry src kv.2)) pre
           ++ (k, VStr n) :: post)
  ∧ outcome_of (load_plugins src (VDict (pre ++ (k, VStr n) :: post)))
    = Raised (ValueError (VStr n)).
Proof.
  intros [Hnd Hwf]%wf_value_dict Hknown Hn.
  rewrite forallb_app in Hwf. apply andb_prop in Hwf as [Hwf _].
  rewrite load_plugins_walk by done.
  by rewrite (walk_partial src pre k n post Hnd Hwf Hknown Hn).
Qed.

(** The resolved mapping has the keys of the mapping, in the same order,
    and a sequence bound in it is resolved element by element. *)
Lemma resolved_keys src d :
  ∃ d', resolved src (VDict d) = VDict d' ∧ d'.*1 = d.*1.
Proof.
  eexists. split; [apply resolved_dict|].
  induction d as [|[k x] d IH]; [done|]. cbn. f_equal. exact IH.
Qed.

Lemma resolved_sequence src k l :
  resolved src (VDict [(k, VList l)])
  = VDict [(k, VList (map (resolved_name src) l))]
  ∧ length (map (resolved_name src) l) = length l.
Proof. split; [done | apply length_map]. Qed.

(** C4 as stated fails: on the bare sequence [[p1; p2; p3]], a plugin spec
    that is not a mapping and all of whose names are known, the run raises
    AttributeError and replaces no name by its loaded object. *)
Lemma load_plugins_bare_sequence_known :
  forallb (is_known three_plugins) [VStr "p1"; VStr "p2"; VStr "p3"] = true
  ∧ load_plugins three_plugins (VList [VStr "p1"; VStr "p2"; VStr "p3"])
    = (VList [VStr "p1"; VStr "p2"; VStr "p3"], [ListPlugins],
       Raised AttributeError).
Proof. by split. Qed.

(** C4, amended: on a plugin spec that is a mapping (with distinct keys at
    every level, as every dict has) all of whose leaves are names of the
    plugin source, the run returns and leaves the mapping [resolved]: the
    same keys in the same order at every level, the same nesting, every
    sequence with its elements in the same order, and each name replaced
    by the object [load_plugin] gives for it. *)
Theorem load_plugins_preserves_shape src d :
  wf_value (VDict d) = true →
  all_known src (VDict d) = true →
  spec_after (load_plugins src (VDict d)) = resolved src (VDict d)
  ∧ outcome_of (load_plugins src (VDict d)) = Returned.
Proof. intros Hwf Hknown. by apply load_plugins_resolves. Qed.

Lemma load_plugins_preserves_shape_witness :
  wf_value (VDict [("parse", VList [VStr "p1"; VStr "p2"; VStr "p3"])]) = true
  ∧ all_known three_plugins
      (VDict [("parse", VList [VStr "p1"; VStr "p2"; VStr "p3"])]) = true
  ∧ spec_after (load_plugins three_plugins
      (VDict [("parse", VList [VStr "p1"; VStr "p2"; VStr "p3"])]))
    = resolved three_plugins
        (VDict [("parse", VList [VStr "p1"; VStr "p2"; VStr "p3"])])
  ∧ outcome_of (load_plugins three_plugins
      (VDict [("parse", VList [VStr "p1"; VStr "p2"; VStr "p3"])]))
    = Returned.
Proof.
  split; [reflexivity|]. split; [reflexivity|].
  apply (load_plugins_preserves_shape three_plugins
           [("parse", VList [VStr "p1"; VStr "p2"; VStr "p3"])]);
    reflexivity.
Defined.

(** The sequence of three names, and the nested groups of the
    specification, resolved by the code. *)
Example load_plugins_sequence :
  load_plugins three_plugins
    (VDict [("parse", VList [VStr "p1"; VStr "p2"; VStr "p3"])])
  = (VDict [("parse", VList [VHandle (load_plugin three_plugins "p1");
                             VHandle (load_plugin three_plugins "p2");
                             VHandle (load_plugin three_plugins "p3")])],
     [ListPlugins; LoadPlugin "p1"; LoadPlugin "p2"; LoadPlugin "p3"],
     Returned).
Proof. by vm_compute. Qed.

Example load_plugins_nested_groups :
  load_plugins three_plugins
    (VDict [("type_a", VStr "p1");
            ("type_b", VDict [("sub", VList [VStr "p1"; VStr "p2"])])])
  = (VDict [("type_a", VHandle (load_plugin three_plugins "p1"));
            ("type_b",
             VDict [("sub", VList [VHandle (load_plugin three_plugins "p1");
                                   VHandle (load_plugin three_plugins "p2")])])],
     [ListPlugins; LoadPlugin "p1"; ListPlugins;
      LoadPlugin "p1"; LoadPlugin "p2"],
     Returned).
Proof. by vm_compute. Qed.

(** C6 as stated fails: resolving [None] calls [list_plugins]. *)
Lemma load_plugins_none_lists_plugins :
  truthy VNone = false
  ∧ calls (load_plugins one_plugin VNone) = [ListPlugins].
Proof. by split. Qed.

(** C6, amended: on an empty or absent plugin spec (any falsy object) the
    run returns, leaves the spec as it is and loads nothing; its only call
    into the plugin source is the one call of [list_plugins] made before
    the spec is tested. *)
Theorem load_plugins_empty_spec src spec :
  truthy spec = false →
  load_plugins src spec = (spec, [ListPlugins], Returned).
Proof.
  intros Hfalsy. destruct (is_dict spec) eqn:Hdict.
  - destruct spec as [ | | | | | | [|kv d] | ]; done.
  - rewrite load_plugins_not_dict by done. by rewrite Hfalsy.
Qed.

Lemma load_plugins_empty_spec_witness :
  truthy (VDict []) = false
  ∧ load_plugins one_plugin (VDict []) = (VDict [], [ListPlugins], Returned).
Proof.
  split; [reflexivity|].
  apply (load_plugins_empty_spec one_plugin (VDict [])). reflexivity.
Defined.

(** C7 as stated fails: a bare name, and a bare sequence of names, known to
    the plugin source make the run raise; nothing is loaded and the spec is
    left as it is. *)
Lemma load_plugins_bare_root_raises :
  load_plugins three_plugins (VStr "p1")
  = (VStr "p1", [ListPlugins], Raised AttributeError)
  ∧ load_plugins three_plugins (VList [VStr "p1"; VStr "p2"])
    = (VList [VStr "p1"; VStr "p2"], [ListPlugins], Raised AttributeError).
Proof. by split. Qed.

(** C7, amended: a non-empty plugin spec that is not a mapping (a bare name,
    a bare sequence of names) is not processed as a leaf: after the call of
    [list_plugins] the run raises (AttributeError), checks no name, loads
    nothing and leaves the spec as it is. *)
Theorem load_plugins_bare_root src spec :
  is_dict spec = false →
  truthy spec = true →
  load_plugins src spec = (spec, [ListPlugins], Raised AttributeError).
Proof.
  intros Hdict Htruthy. rewrite load_plugins_not_dict by done.
  by rewrite Htruthy.
Qed.

Lemma load_plugins_bare_root_witness :
  is_dict (VList [VStr "p1"; VStr "p2"]) = false
  ∧ truthy (VList [VStr "p1"; VStr "p2"]) = true
  ∧ load_plugins three_plugins (VList [VStr "p1"; VStr "p2"])
    = (VList [VStr "p1"; VStr "p2"], [ListPlugins], Raised AttributeError).
Proof.
  split; [reflexivity|]. split; [reflexivity|].
  apply (load_plugins_bare_root three_plugins
           (VList [VStr "p1"; VStr "p2"])); reflexivity.
Defined.

(** C9: there is a plugin source and a mapping of two bindings, the second
    of which names a plugin the source does not list, on which the run
    raises for that name and leaves the first binding already replaced by
    the loaded object, the second one as it was. *)
Theorem load_plugins_not_atomic :
  ∃ src k1 n1 k2 n2,
    (n1 ∈ list_plugins src)
    ∧ (n2 ∉ list_plugins src)
    ∧ load_plugins src (VDict [(k1, VStr n1); (k2, VStr n2)])
      = (VDict [(k1, VHandle (load_plugin src n1)); (k2, VStr n2)],
         [ListPlugins; LoadPlugin n1],
         Raised (ValueError (VStr n2))).
Proof.
  exists one_plugin, "first", "p1", "second", "missing".
  split; [apply (bool_decide_unpack _); by vm_compute|].
  split; [apply (bool_decide_unpack _); by vm_compute|].
  by vm_compute.
Qed.

(** C10: in a well-formed mapping, a binding of [k] to an object [v] that is
    neither a string, a sequence nor a mapping is inert: the run on the
    mapping ends as the run on the mapping without that binding does, with
    the same calls into the plugin source, and leaves the same bindings
    around the binding of [k] to [v], which is unchanged. *)
Theorem load_plugins_ignores_other src pre k v post :
  is_ignored v = true →
  wf_value (VDict (pre ++ (k, v) :: post)) = true →
  ∃ pre' post' log out,
    length pre' = length pre
    ∧ load_plugins src (VDict (pre ++ post)) = (VDict (pre' ++ post'), log, out)
    ∧ load_plugins src (VDict (pre ++ (k, v) :: post))
      = (VDict (pre' ++ (k, v) :: post'), log, out).
Proof.
  intros Hv [Hnd _]%wf_value_dict.
  destruct (walk_ignores src pre k v post Hv Hnd)
    as (pre' & post' & Hlen & Hw & Hw').
  assert (Hnd' : NoDup (pre ++ post).*1).
  { rewrite fmap_app in *. simpl in Hnd.
    apply NoDup_app in Hnd as (H1 & H2 & H3%NoDup_cons).
    apply NoDup_app. split; [done|]. split; [|tauto].
    intros x Hx Hx'. apply (H2 x Hx). by right. }
  exists pre', post', (ListPlugins :: (walk src (pre ++ post)).1.2),
    (walk src (pre ++ post)).2.
  split; [done|]. rewrite !load_plugins_walk by done.
  rewrite Hw, Hw'. done.
Qed.

Lemma load_plugins_ignores_other_witness :
  is_ignored (VInt 3) = true
  ∧ wf_value (VDict ([("first", VStr "p1")]
                     ++ ("retries", VInt 3) :: [("second", VStr "missing")]))
    = true
  ∧ ∃ pre' post' log out,
      length pre' = length [("first", VStr "p1")]
      ∧ load_plugins one_plugin
          (VDict ([("first", VStr "p1")] ++ [("second", VStr "missing")]))
        = (VDict (pre' ++ post'), log, out)
      ∧ load_plugins one_plugin
          (VDict ([("first", VStr "p1")]
                  ++ ("retries", VInt 3) :: [("second", VStr "missing")]))
        = (VDict (pre' ++ ("retries", VInt 3) :: post'), log, out).
Proof.
  split; [reflexivity|]. split; [reflexivity|].
  apply (load_plugins_ignores_other one_plugin
           [("first", VStr "p1")] "retries" (VInt 3)
           [("second", VStr "missing")]); reflexivity.
Defined.

(** * Further properties *)

(** ** Flattening *)

(** A call on a mapping is the call with the depth it works with. *)
Lemma set_property_in_call_depth {Self}
    (setattr : string → value → Self → Self) fd d prefix depth self :
  set_property_in setattr fd (VDict d) prefix depth self
  = set_property_in setattr fd (VDict d) prefix
      (Some (call_depth fd prefix depth d)) self.
Proof. destruct depth; [done|]. by destruct d as [|[k v] d]. Qed.

Lemma write_trace_capped fd d prefix n tr0 :
  (n ≤ 1)%Z →
  set_property_in (λ name x t, t ++ [(name, x)]) fd (VDict d) prefix
    (Some n) tr0
  = inl (tr0 ++ top_bindings prefix d).
Proof.
  intros Hn. rewrite set_property_in_dict. revert tr0.
  induction d as [|[k v] d IH]; intros tr0; simpl.
  - by rewrite app_nil_r.
  - replace (Z.ltb 1 n) with false by (symmetry; apply Z.ltb_ge; lia).
    rewrite andb_false_r, IH. by rewrite <- app_assoc.
Qed.

Lemma set_property_at_most_one fd d prefix depth (self : gmap string value) :
  (call_depth fd prefix depth d ≤ 1)%Z →
  set_property fd (VDict d) prefix depth self
  = inl (replay (top_bindings prefix d) self).
Proof.
  intros Hn. unfold set_property.
  rewrite set_property_in_call_depth.
  change (set_property fd (VDict d) prefix
            (Some (call_depth fd prefix depth d)) self
          = inl (replay (top_bindings prefix d) self)).
  rewrite set_property_replay. unfold write_trace.
  by rewrite write_trace_capped.
Qed.

(** X1: a call on a mapping that works with a depth of at most 1 (also 0 or
    a negative depth) recurses nowhere: it binds every key of the mapping,
    at its qualified path, to its value as it is, mappings included. *)
Theorem set_property_capped fd d prefix depth (self : gmap string value) :
  (call_depth fd prefix depth d ≤ 1)%Z →
  set_property fd (VDict d) prefix depth self
  = inl (replay (top_bindings prefix d) self).
Proof. apply set_property_at_most_one. Qed.

Lemma set_property_capped_witness :
  (call_depth config_fields_depth "" None plugins_then_db ≤ 1)%Z
  ∧ set_property config_fields_depth (VDict plugins_then_db) "" None ∅
    = inl (replay (top_bindings "" plugins_then_db) ∅).
Proof.
  split; [by vm_compute|].
  apply (set_property_capped config_fields_depth plugins_then_db "" None ∅).
  by vm_compute.
Defined.








(** X3: a call on a mapping reads the depth table at most once, for the
    first key of the mapping: two tables that give the call the same depth
    give the same result, whatever they hold for the other keys. *)
Theorem set_property_depth_table fd fd' d prefix depth
    (self : gmap string value) :
  call_depth fd prefix depth d = call_depth fd' prefix depth d →
  set_property fd (VDict d) prefix depth self
  = set_property fd' (VDict d) prefix depth self.
Proof.
  intros Hn. unfold set_property.
  rewrite (set_property_in_call_depth _ fd), (set_property_in_call_depth _ fd').
  rewrite Hn. apply set_property_no_fresh_lookup.
Qed.

Lemma set_property_depth_table_witness :
  call_depth config_fields_depth "" None db_then_plugins
  = call_depth ∅ "" None db_then_plugins
  ∧ set_property config_fields_depth (VDict db_then_plugins) "" None ∅
    = set_property ∅ (VDict db_then_plugins) "" None ∅.
Proof.
  split; [by vm_compute|].
  apply (set_property_depth_table config_fields_depth ∅ db_then_plugins
           "" None ∅).
  by vm_compute.
Defined.

Lemma string_app_assoc (a b c : string) :
  (a +:+ b) +:+ c = a +:+ (b +:+ c).
Proof.
  induction a as [|x a IH]; [done|].
  change (String x ((a +:+ b) +:+ c) = String x (a +:+ (b +:+ c))).
  by rewrite IH.
Qed.

Lemma starts_with_app a b : starts_with a (a +:+ b) = true.
Proof.
  induction a as [|x a IH]; [done|]. simpl.
  by rewrite Ascii.eqb_refl.
Qed.

Lemma starts_with_app_l a b s :
  starts_with (a +:+ b) s = true → starts_with a s = true.
Proof.
  revert s. induction a as [|x a IH]; intros s; [done|].
  destruct s as [|y s]; [done|]. simpl.
  intros [-> H]%andb_prop. simpl. by apply IH.
Qed.

Lemma under_full_name prefix name :
  prefix ≠ "" → under prefix (full_name prefix name) = true.
Proof.
  intros Hne. unfold under, full_name.
  apply String.eqb_neq in Hne. rewrite Hne.
  rewrite <- string_app_assoc. apply starts_with_app.
Qed.

Lemma under_trans prefix name path :
  prefix ≠ "" →
  under (full_name prefix name) path = true → under prefix path = true.
Proof.
  intros Hne. unfold under, full_name.
  apply String.eqb_neq in Hne. rewrite Hne.
  rewrite <- (string_app_assoc prefix), string_app_assoc.
  apply starts_with_app_l.
Qed.

Lemma full_name_nonempty prefix name :
  prefix ≠ "" → full_name prefix name ≠ "".
Proof.
  intros Hne Heq. pose proof (full_name_longer prefix name Hne) as Hlen.
  rewrite Heq in Hlen. simpl in Hlen. lia.
Qed.

(** Under a non-empty prefix every write goes to a path below the prefix. *)
Lemma write_trace_under fd v prefix depth tr0 tr :
  prefix ≠ "" →
  set_property_in (λ name x t, t ++ [(name, x)]) fd v prefix depth tr0
  = inl tr →
  ∃ new, tr = tr0 ++ new ∧ Forall (λ kv, under prefix kv.1 = true) new.
Proof.
  revert prefix depth tr0 tr.
  induction v as [ | | | | | | d IHd | ] using value_nested_ind;
    intros prefix depth tr0 tr Hne;
    try (rewrite set_property_in_not_dict by done; case_match; [done|];
         intros [= <-]; exists []; by rewrite app_nil_r).
  rewrite set_property_in_dict. revert depth tr0 tr.
  induction IHd as [|[k v] d Hv _ IH]; intros depth tr0 tr.
  - intros [= <-]. exists []. by rewrite app_nil_r.
  - simpl in *. destruct (is_dict v && _).
    + destruct (set_property_in _ fd v _ _ tr0) as [tr1|] eqn:Hrec; [|done].
      intros Hrest.
      destruct (Hv _ _ _ _ (full_name_nonempty prefix k Hne) Hrec)
        as (new1 & -> & Hnew1).
      destruct (IH _ _ _ Hrest) as (new2 & -> & Hnew2).
      exists (new1 ++ new2). split; [by rewrite app_assoc|].
      apply Forall_app. split; [|done].
      eapply Forall_impl; [exact Hnew1|]. simpl.
      intros kv. by apply under_trans.
    + intros Hrest. destruct (IH _ _ _ Hrest) as (new2 & -> & Hnew2).
      exists ((full_name prefix k, v) :: new2).
      split; [by rewrite <- app_assoc|].
      constructor; [by apply under_full_name | done].
Qed.

Lemma last_write_none path (tr : list (string * value)) :
  Forall (λ kv, kv.1 ≠ path) tr → last_write path tr = None.
Proof.
  intros Htr. unfold last_write.
  replace (filter (λ kv : string * value, kv.1 = path) tr)
    with (@nil (string * value)); [done|].
  symmetry. induction Htr as [|[k x] tr Hk _ IH]; [done|].
  by rewrite filter_cons_False.
Qed.

(** X4: a call under a non-empty prefix writes only to paths that start
    with the prefix and the separator: every other path of the object,
    the prefix itself among them, holds afterwards what it held before. *)
Theorem set_property_under_prefix fd v prefix depth
    (ns ns' : gmap string value) path :
  prefix ≠ "" →
  set_property fd v prefix depth ns = inl ns' →
  under prefix path = false →
  ns' !! path = ns !! path.
Proof.
  intros Hne. rewrite set_property_replay. unfold write_trace.
  destruct (set_property_in _ fd v prefix depth []) as [tr|] eqn:Htr; [|done].
  intros [= <-] Hpath. rewrite replay_lookup.
  destruct (write_trace_under _ _ _ _ _ _ Hne Htr) as (new & -> & Hnew).
  simpl. rewrite last_write_none; [done|].
  eapply Forall_impl; [exact Hnew|]. simpl.
  intros kv Hkv Heq. rewrite Heq in Hkv. congruence.
Qed.

Lemma set_property_under_prefix_witness :
  "a" ≠ ""
  ∧ set_property ∅ (VDict [("b", VDict [("c", VInt 1)])]) "a" None
      {[ "a" := VInt 7 ]}
    = inl {[ "a_b_c" := VInt 1; "a" := VInt 7 ]}
  ∧ under "a" "a" = false
  ∧ ({[ "a_b_c" := VInt 1; "a" := VInt 7 ]} : gmap string value) !! "a"
    = ({[ "a" := VInt 7 ]} : gmap string value) !! "a".
Proof.
  split; [done|]. split; [by vm_compute|]. split; [reflexivity|].
  apply (set_property_under_prefix ∅ (VDict [("b", VDict [("c", VInt 1)])])
           "a" None {[ "a" := VInt 7 ]}
           {[ "a_b_c" := VInt 1; "a" := VInt 7 ]} "a");
    [done | by vm_compute | reflexivity].
Defined.

(** ** Plugin resolution *)

Lemma known_prefix_listed src l n :
  n ∈ known_prefix src l → n ∈ list_plugins src.
Proof.
  induction l as [|x l IH]; simpl; [by intros ?%elem_of_nil|].
  destruct (known (list_plugins src) x) as [m|] eqn:Hx;
    [|by intros ?%elem_of_nil].
  intros [->|Hn]%elem_of_cons; [|by apply IH].
  destruct x; try done. simpl in Hx.
  case_bool_decide; by simplify_eq.
Qed.

(** X5: whatever the plugin spec, and however the run ends, every name
    passed to [load_plugin] is one of the names [list_plugins] gave: an
    unlisted name is never loaded. *)
Theorem load_plugins_loads_listed src spec n :
  n ∈ loads (calls (load_plugins src spec)) → n ∈ list_plugins src.
Proof.
  destruct (is_dict spec) eqn:Hdict.
  - destruct (load_plugins_outcome src spec Hdict) as [_ ->].
    apply known_prefix_listed.
  - rewrite load_plugins_not_dict by done. by intros ?%elem_of_nil.
Qed.

Lemma load_plugins_loads_listed_witness :
  "p1" ∈ loads (calls (load_plugins one_plugin
                         (VDict [("a", VStr "p1"); ("b", VStr "missing")])))
  ∧ "p1" ∈ list_plugins one_plugin.
Proof.
  assert (H : "p1" ∈ loads (calls (load_plugins one_plugin
                 (VDict [("a", VStr "p1"); ("b", VStr "missing")])))).
  { apply (bool_decide_unpack _). by vm_compute. }
  split; [exact H|].
  exact (load_plugins_loads_listed one_plugin
           (VDict [("a", VStr "p1"); ("b", VStr "missing")]) "p1" H).
Defined.

Lemma walk_keys src its :
  NoDup its.*1 → (walk src its).1.1.*1 = its.*1.
Proof.
  induction its as [|[k plus] its IH]; intros Hnd; [done|].
  rewrite walk_cons by done.
  simpl in Hnd. apply NoDup_cons in Hnd as [_ Hnd].
  destruct (visit src plus).2; cbn; [by rewrite IH | done].
Qed.

(** X6: a run on a mapping with distinct keys leaves a mapping with the
    same keys in the same order, whether it returns or raises: no key is
    added or removed, also when the run stops half way. *)
Theorem load_plugins_keeps_keys src d :
  wf_value (VDict d) = true →
  ∃ d', spec_after (load_plugins src (VDict d)) = VDict d'
        ∧ d'.*1 = d.*1.
Proof.
  intros [Hnd _]%wf_value_dict. rewrite load_plugins_walk by done.
  exists (walk src d).1.1. split; [done|]. by apply walk_keys.
Qed.

Lemma load_plugins_keeps_keys_witness :
  wf_value (VDict [("a", VStr "p1"); ("b", VStr "missing");
                   ("c", VStr "p1")]) = true
  ∧ ∃ d', spec_after (load_plugins one_plugin
                        (VDict [("a", VStr "p1"); ("b", VStr "missing");
                                ("c", VStr "p1")])) = VDict d'
          ∧ d'.*1 = [("a", VStr "p1"); ("b", VStr "missing");
                     ("c", VStr "p1")].*1.
Proof.
  split; [reflexivity|].
  apply (load_plugins_keeps_keys one_plugin
           [("a", VStr "p1"); ("b", VStr "missing"); ("c", VStr "p1")]).
  reflexivity.
Defined.

Lemma visit_raises src plus e :
  is_dict plus = false →
  expected_outcome src (entry_leaves plus) = Raised e →
  (visit src plus).1.1 = None ∧ (visit src plus).2 = Raised e.
Proof.
  intros Hdict Hout. destruct plus as [ | | | | s | l | d | ]; try done.
  - unfold expected_outcome, is_known in Hout. simpl in *.
    destruct (bool_decide (s ∈ list_plugins src)); simpl in *; [done|].
    by simplify_eq.
  - unfold visit. rewrite load_each_spec. simpl in Hout. by rewrite Hout.
Qed.

Lemma walk_stops_at src pre k plus post e :
  NoDup (pre ++ (k, plus) :: post).*1 →
  forallb (λ '(_, x), wf_value x) pre = true →
  forallb (is_known src) (leaves (VDict pre)) = true →
  is_dict plus = false →
  expected_outcome src (entry_leaves plus) = Raised e →
  (walk src (pre ++ (k, plus) :: post)).1.1
  = map (λ kv, (kv.1, resolved_entry src kv.2)) pre ++ (k, plus) :: post
  ∧ (walk src (pre ++ (k, plus) :: post)).2 = Raised e.
Proof.
  intros Hnd Hwf Hknown Hdict Hout.
  induction pre as [|[k0 p0] pre IH].
  - simpl app. rewrite walk_cons by done.
    destruct (visit_raises src plus e Hdict Hout) as [-> ->]. done.
  - simpl app. rewrite walk_cons by done.
    rewrite leaves_cons, forallb_app in Hknown.
    apply andb_prop in Hknown as [Hk1 Hk2].
    simpl in Hwf. apply andb_prop in Hwf as [Hw1 Hw2].
    destruct (visit_resolves src p0 (load_plugins_resolves src p0) Hw1 Hk1)
      as [-> ->].
    simpl in Hnd. apply NoDup_cons in Hnd as [_ Hnd].
    destruct (IH Hnd Hw2 Hk2) as [-> ->]. done.
Qed.

(** X7: in a mapping with distinct keys, let a name, or a sequence with an
    element, that is not listed be bound to [k], after bindings whose
    leaves are all listed.  The run raises for that leaf and leaves the
    bindings in front of [k] resolved, the binding of [k] as it was -- a
    sequence keeps all its names, also those already loaded -- and the
    bindings behind [k] as they were. *)
Theorem load_plugins_stops_at src pre k plus post e :
  wf_value (VDict (pre ++ (k, plus) :: post)) = true →
  all_known src (VDict pre) = true →
  is_dict plus = false →
  expected_outcome src (entry_leaves plus) = Raised e →
  load_plugins src (VDict (pre ++ (k, plus) :: post))
  = (VDict (map (λ kv, (kv.1, resolved_entry src kv.2)) pre
            ++ (k, plus) :: post),
     calls (load_plugins src (VDict (pre ++ (k, plus) :: post))),
     Raised e)
  ∧ loads (calls (load_plugins src (VDict (pre ++ (k, plus) :: post))))
    = known_prefix src (leaves (VDict pre))
      ++ known_prefix src (entry_leaves plus).
Proof.
  intros [Hnd Hwf]%wf_value_dict Hknown Hdict Hout.
  rewrite forallb_app in Hwf. apply andb_prop in Hwf as [Hwf _].
  split.
  - rewrite load_plugins_walk by done. unfold calls. cbn [fst snd].
    by destruct (walk_stops_at src pre k plus post e Hnd Hwf Hknown Hdict Hout)
      as [-> ->].
  - destruct (load_plugins_outcome src (VDict (pre ++ (k, plus) :: post))
                eq_refl) as [_ ->].
    assert (Hl : leaves (VDict (pre ++ (k, plus) :: post))
                 = leaves (VDict pre)
                   ++ entry_leaves plus ++ leaves (VDict post)).
    { clear. induction pre as [|[k0 p0] pre IH].
      - apply leaves_cons.
      - simpl app. rewrite !leaves_cons, IH. by rewrite <- app_assoc. }
    rewrite Hl, !known_prefix_app.
    rewrite (all_known_outcome src _ Hknown), Hout. done.
Qed.

Lemma load_plugins_stops_at_witness :
  wf_value (VDict ([("a", VStr "p1")]
                   ++ ("b", VList [VStr "p1"; VStr "missing"])
                   :: [("c", VStr "p1")])) = true
  ∧ all_known one_plugin (VDict [("a", VStr "p1")]) = true
  ∧ is_dict (VList [VStr "p1"; VStr "missing"]) = false
  ∧ expected_outcome one_plugin
      (entry_leaves (VList [VStr "p1"; VStr "missing"]))
    = Raised (ValueError (VStr "missing"))
  ∧ spec_after (load_plugins one_plugin
      (VDict ([("a", VStr "p1")]
              ++ ("b", VList [VStr "p1"; VStr "missing"])
              :: [("c", VStr "p1")])))
    = VDict [("a", VHandle (load_plugin one_plugin "p1"));
             ("b", VList [VStr "p1"; VStr "missing"]);
             ("c", VStr "p1")]
  ∧ loads (calls (load_plugins one_plugin
      (VDict ([("a", VStr "p1")]
              ++ ("b", VList [VStr "p1"; VStr "missing"])
              :: [("c", VStr "p1")]))))
    = ["p1"; "p1"].
Proof.
  destruct (load_plugins_stops_at one_plugin [("a", VStr "p1")] "b"
              (VList [VStr "p1"; VStr "missing"]) [("c", VStr "p1")]
              (ValueError (VStr "missing"))
              eq_refl eq_refl eq_refl eq_refl) as [H1 H2].
  split; [reflexivity|]. split; [reflexivity|]. split; [reflexivity|].
  split; [reflexivity|]. split.
  - rewrite H1. reflexivity.
  - rewrite H2. reflexivity.
Defined.

(** ** Construction of the object *)

Lemma full_name_root name : full_name "" name = name.
Proof. done. Qed.

Lemma top_bindings_root d : top_bindings "" d = d.
Proof.
  unfold top_bindings. induction d as [|[k v] d IH]; [done|].
  cbn [map]. by rewrite IH.
Qed.

Lemma replay_not_written tr (ns : gmap string value) k :
  k ∉ tr.*1 → replay tr ns !! k = ns !! k.
Proof.
  intros Hk. rewrite replay_lookup, last_write_none; [done|].
  apply Forall_forall. intros [k' v'] Hin Heq. simpl in Heq. subst.
  apply Hk. apply list_elem_of_fmap. by exists (k, v').
Qed.

Lemma replay_distinct tr (ns : gmap string value) k v :
  NoDup tr.*1 → (k, v) ∈ tr → replay tr ns !! k = Some v.
Proof.
  revert ns. induction tr as [|[k0 v0] tr IH]; intros ns Hnd Hin.
  - by apply elem_of_nil in Hin.
  - simpl in Hnd. apply NoDup_cons in Hnd as [Hk0 Hnd].
    change (replay ((k0, v0) :: tr) ns) with (replay tr (<[k0 := v0]> ns)).
    apply elem_of_cons in Hin as [[= -> ->]|Hin].
    + rewrite replay_not_written by done. apply lookup_insert_eq.
    + by apply IH.
Qed.

Lemma starts_with_separator k s :
  starts_with (k +:+ "_") s = true →
  existsb (Ascii.eqb (Ascii.ascii_of_nat 95)) (String.list_ascii_of_string s) = true.
Proof.
  revert s. induction k as [|a k IH]; intros [|b s]; try done;
    cbn [starts_with String.append existsb String.list_ascii_of_string].
  - intros [H _]%andb_prop. apply orb_true_intro. left. exact H.
  - intros [_ H]%andb_prop. rewrite (IH _ H). apply orb_true_r.
Qed.

(** No path below a prefix is the attribute name [plugins]. *)
Lemma under_plugins k : under k "plugins" = false.
Proof.
  destruct (under k "plugins") eqn:H; [|done].
  apply starts_with_separator in H. done.
Qed.

(** At the top level, with a depth above 1 and no empty key, mappings bound
    to [plugins] are flattened and nothing is written to [plugins]. *)
Lemma top_level_avoids_plugins fd d n tr0 tr :
  (1 < n)%Z →
  forallb (λ kv, negb (String.eqb kv.1 "")) d = true →
  only_mappings_at "plugins" d = true →
  set_property_in (λ name x t, t ++ [(name, x)]) fd (VDict d) ""
    (Some n) tr0 = inl tr →
  ∃ new, tr = tr0 ++ new ∧ Forall (λ kv, kv.1 ≠ "plugins") new.
Proof.
  intros Hn. rewrite set_property_in_dict. revert tr0 tr.
  induction d as [|[k v] d IH]; intros tr0 tr Hkeys Honly.
  - intros [= <-]. exists []. by rewrite app_nil_r.
  - simpl in Hkeys, Honly.
    apply andb_prop in Hkeys as [Hk Hkeys].
    apply andb_prop in Honly as [Hv Honly].
    apply negb_true_iff, String.eqb_neq in Hk.
    cbn [set_items]. rewrite full_name_root.
    replace (Z.ltb 1 n) with true by (symmetry; by apply Z.ltb_lt).
    rewrite andb_true_r. destruct (is_dict v) eqn:Hdict.
    + destruct (set_property_in _ fd v k _ tr0) as [tr1|] eqn:Hrec; [|done].
      intros Hrest.
      destruct (write_trace_under _ _ _ _ _ _ Hk Hrec) as (new1 & -> & Hnew1).
      destruct (IH _ _ Hkeys Honly Hrest) as (new2 & -> & Hnew2).
      exists (new1 ++ new2). split; [by rewrite app_assoc|].
      apply Forall_app. split; [|done].
      eapply Forall_impl; [exact Hnew1|]. simpl.
      intros kv Hkv Heq. rewrite Heq, under_plugins in Hkv. done.
    + intros Hrest.
      destruct (IH _ _ Hkeys Honly Hrest) as (new2 & -> & Hnew2).
      exists ((k, v) :: new2). split; [by rewrite <- app_assoc|].
      constructor; [|done]. simpl. intros ->.
      rewrite orb_false_r in Hv. done.
Qed.

Lemma load_args_other epoch_seconds args (self self' : gmap string value) k :
  load_args epoch_seconds args self = inl self' →
  k ∉ ["start_time"; "end_time"; "log_path"; "upload_path"] →
  self' !! k = self !! k.
Proof.
  unfold load_args.
  destruct (get_timestamp epoch_seconds (arg_start_time args) true); [|done].
  destruct (get_timestamp epoch_seconds (arg_end_time args) true); [|done].
  intros [= <-] Hk.
  rewrite !lookup_insert_ne; [done|..]; intros <-; apply Hk;
    repeat first [apply list_elem_of_here | apply list_elem_of_further].
Qed.

Lemma logger_config_returns (self self' : gmap string value) :
  logger_config self = inl self' → self' = self.
Proof.
  unfold logger_config. repeat case_match; by intros [= <-].
Qed.

Lemma prepare_plugins epoch_seconds args document (self1 self : gmap string value) :
  set_property config_fields_depth document "" None init_attrs = inl self1 →
  prepare epoch_seconds args document = inl self →
  ∀ k, k ∉ ["start_time"; "end_time"; "log_path"; "upload_path"] →
       self !! k = self1 !! k.
Proof.
  unfold prepare. intros ->.
  destruct (load_args epoch_seconds args self1) as [self2|] eqn:Hargs; [|done].
  intros ->%logger_config_returns k Hk.
  by apply (load_args_other _ _ _ _ _ Hargs).
Qed.

Lemma plugins_not_arg :
  "plugins" ∉ ["start_time"; "end_time"; "log_path"; "upload_path"].
Proof. apply (bool_decide_unpack _). by vm_compute. Qed.

Lemma pre_load_plugins_none src (self : gmap string value) :
  self !! "plugins" = Some VNone →
  pre_load_plugins src self
  = (<["plugins" := VNone]> self, [ListPlugins], Returned).
Proof. unfold pre_load_plugins. by intros ->. Qed.

(** X8: let the document be a mapping without empty key whose first key is
    not [plugins], and let [plugins], if it is a key, be bound to a mapping.
    Then the depth looked up for the first key (unlimited) is also the
    depth of [plugins]: the mapping is not bound to the attribute
    [plugins], which keeps the [None] of line 34, and the construction
    loads no plugin at all, whatever the plugin source lists; if it
    returns, its only call into the plugin source is [list_plugins]. *)
Theorem init_plugins_not_first epoch_seconds args k0 v0 rest src :
  String.eqb k0 "plugins" = false →
  forallb (λ kv, negb (String.eqb kv.1 "")) ((k0, v0) :: rest) = true →
  only_mappings_at "plugins" ((k0, v0) :: rest) = true →
  loads (init epoch_seconds args (VDict ((k0, v0) :: rest)) src).1.2 = []
  ∧ ((init epoch_seconds args (VDict ((k0, v0) :: rest)) src).2 = Returned →
     (init epoch_seconds args (VDict ((k0, v0) :: rest)) src).1.1
       !! "plugins" = Some VNone
     ∧ (init epoch_seconds args (VDict ((k0, v0) :: rest)) src).1.2
       = [ListPlugins]).
Proof.
  intros Hk0 Hkeys Honly. apply String.eqb_neq in Hk0.
  assert (Hflat : ∃ self1 : gmap string value,
    set_property config_fields_depth (VDict ((k0, v0) :: rest)) "" None
      init_attrs = inl self1
    ∧ self1 !! "plugins" = Some VNone).
  { unfold set_property. rewrite set_property_in_call_depth.
    assert (Hdepth : call_depth config_fields_depth "" None ((k0, v0) :: rest)
                     = sys_maxsize).
    { unfold call_depth, lookup_depth, config_fields_depth.
      rewrite full_name_root. by rewrite lookup_singleton_ne. }
    rewrite Hdepth.
    change (∃ self1 : gmap string value,
      set_property config_fields_depth (VDict ((k0, v0) :: rest)) ""
        (Some sys_maxsize) init_attrs = inl self1
      ∧ self1 !! "plugins" = Some VNone).
    rewrite set_property_replay. unfold write_trace.
    destruct (set_property_in_returns (λ name x t, t ++ [(name, x)])
                config_fields_depth (VDict ((k0, v0) :: rest)) ""
                (Some sys_maxsize) [] eq_refl) as [tr Htr].
    rewrite Htr. eexists. split; [done|].
    assert (Hbig : (1 < sys_maxsize)%Z) by done.
    destruct (top_level_avoids_plugins _ _ _ _ _ Hbig Hkeys Honly Htr)
      as (new & -> & Hnew).
    rewrite replay_lookup, last_write_none by done. done. }
  destruct Hflat as (self1 & Hself1 & Hplugins).
  unfold init.
  destruct (prepare epoch_seconds args (VDict ((k0, v0) :: rest)))
    as [self|e] eqn:Hprep; [|done].
  rewrite pre_load_plugins_none.
  { cbn [fst snd]. split; [done|]. intros _.
    split; [apply lookup_insert_eq | done]. }
  rewrite (prepare_plugins _ _ _ _ _ Hself1 Hprep _ plugins_not_arg).
  exact Hplugins.
Qed.

Lemma init_plugins_not_first_witness :
  String.eqb "db" "plugins" = false
  ∧ forallb (λ kv, negb (String.eqb kv.1 "")) db_then_plugins = true
  ∧ only_mappings_at "plugins" db_then_plugins = true
  ∧ (init fixed_seconds no_args (VDict db_then_plugins) one_plugin).2
    = Returned
  ∧ loads (init fixed_seconds no_args (VDict db_then_plugins) one_plugin).1.2
    = []
  ∧ (init fixed_seconds no_args (VDict db_then_plugins) one_plugin).1.1
      !! "plugins" = Some VNone
  ∧ (init fixed_seconds no_args (VDict db_then_plugins) one_plugin).1.2
    = [ListPlugins].
Proof.
  destruct (init_plugins_not_first fixed_seconds no_args "db"
              (VDict [("host", VStr "localhost")])
              [("plugins", VDict [("parse", VStr "p1")])] one_plugin
              eq_refl eq_refl eq_refl) as [H1 H2].
  destruct (H2 eq_refl) as [H3 H4].
  split; [reflexivity|]. split; [reflexivity|]. split; [reflexivity|].
  split; [reflexivity|]. split; [exact H1|]. split; [exact H3 | exact H4].
Defined.

(** X9: let the first key of the document be [plugins], bound to a mapping
    whose leaves are all listed, in a document with distinct keys.  If the
    construction returns, the attribute [plugins] is the resolved plugin
    spec, the plugins loaded are its leaves in order, and every other
    top-level key that is not one of the four argument attributes is bound
    to its value as it is: the depth 1 of [plugins] is the depth of the
    whole document, so nothing in it is flattened. *)
Theorem init_plugins_first epoch_seconds args p rest src :
  wf_value (VDict (("plugins", VDict p) :: rest)) = true →
  all_known src (VDict p) = true →
  (init epoch_seconds args (VDict (("plugins", VDict p) :: rest)) src).2
  = Returned →
  (init epoch_seconds args (VDict (("plugins", VDict p) :: rest)) src).1.1
    !! "plugins" = Some (resolved src (VDict p))
  ∧ loads (init epoch_seconds args
             (VDict (("plugins", VDict p) :: rest)) src).1.2
    = known_prefix src (leaves (VDict p))
  ∧ ∀ k v, (k, v) ∈ rest →
           k ∉ ["start_time"; "end_time"; "log_path"; "upload_path"] →
           (init epoch_seconds args
              (VDict (("plugins", VDict p) :: rest)) src).1.1 !! k
           = Some v.
Proof.
  intros Hwf Hknown.
  pose proof Hwf as [Hnd Hwfs]%wf_value_dict.
  simpl in Hwfs. apply andb_prop in Hwfs as [Hwfp _].
  assert (Hflat :
    set_property config_fields_depth (VDict (("plugins", VDict p) :: rest))
      "" None init_attrs
    = inl (replay (("plugins", VDict p) :: rest) init_attrs)).
  { rewrite set_property_at_most_one by (by vm_compute).
    by rewrite top_bindings_root. }
  unfold init.
  destruct (prepare epoch_seconds args
              (VDict (("plugins", VDict p) :: rest)))
    as [self|e] eqn:Hprep; [|done].
  pose proof (prepare_plugins _ _ _ _ _ Hflat Hprep) as Hsame.
  assert (Hp : self !! "plugins" = Some (VDict p)).
  { rewrite (Hsame _ plugins_not_arg).
    apply replay_distinct; [done | apply list_elem_of_here]. }
  unfold pre_load_plugins. rewrite Hp. simpl default.
  destruct (load_plugins_resolves src (VDict p) eq_refl Hwfp Hknown)
    as [Hafter Hout].
  destruct (load_plugins_outcome src (VDict p) eq_refl) as [_ Hloads].
  unfold spec_after, outcome_of, calls in *.
  destruct (load_plugins src (VDict p)) as [[p' lg] out].
  cbn [fst snd] in *. rewrite Hafter. intros _.
  split; [apply lookup_insert_eq|]. split; [exact Hloads|].
  intros k v Hin Hk.
  assert (Hne : "plugins" ≠ k).
  { intros <-. apply NoDup_cons in Hnd as [Hnot _]. apply Hnot.
    apply list_elem_of_fmap. by exists ("plugins", v). }
  rewrite lookup_insert_ne by done. rewrite (Hsame _ Hk).
  apply replay_distinct; [done | by apply list_elem_of_further].
Qed.

Lemma init_plugins_first_witness :
  wf_value (VDict (("plugins", VDict [("parse", VStr "p1")])
                   :: [("db", VDict [("host", VStr "localhost")])])) = true
  ∧ all_known one_plugin (VDict [("parse", VStr "p1")]) = true
  ∧ (init fixed_seconds no_args
       (VDict (("plugins", VDict [("parse", VStr "p1")])
               :: [("db", VDict [("host", VStr "localhost")])]))
       one_plugin).2 = Returned
  ∧ (init fixed_seconds no_args
       (VDict (("plugins", VDict [("parse", VStr "p1")])
               :: [("db", VDict [("host", VStr "localhost")])]))
       one_plugin).1.1 !! "plugins"
    = Some (resolved one_plugin (VDict [("parse", VStr "p1")]))
  ∧ (init fixed_seconds no_args
       (VDict (("plugins", VDict [("parse", VStr "p1")])
               :: [("db", VDict [("host", VStr "localhost")])]))
       one_plugin).1.1 !! "db"
    = Some (VDict [("host", VStr "localhost")]).
Proof.
  destruct (init_plugins_first fixed_seconds no_args
              [("parse", VStr "p1")]
              [("db", VDict [("host", VStr "localhost")])] one_plugin
              eq_refl eq_refl eq_refl) as (H1 & _ & H3).
  split; [reflexivity|]. split; [reflexivity|]. split; [reflexivity|].
  split; [exact H1|].
  apply H3; [apply list_elem_of_here|].
  apply (bool_decide_unpack _). by vm_compute.
Defined.

(** X10: the attributes [start_time], [end_time], [log_path] and
    [upload_path] of a constructed object always come from the arguments,
    whatever the document binds to these names: the two times are the
    timestamps in milliseconds of the time arguments, the two paths are
    the path arguments, [None] when an argument is absent. *)
Theorem prepare_args_override epoch_seconds args document
    (self : gmap string value) :
  prepare epoch_seconds args document = inl self →
  (∃ start_time end_time,
      get_timestamp epoch_seconds (arg_start_time args) true = inl start_time
      ∧ get_timestamp epoch_seconds (arg_end_time args) true = inl end_time
      ∧ self !! "start_time" = Some (VInt start_time)
      ∧ self !! "end_time" = Some (VInt end_time))
  ∧ self !! "log_path" = Some (str_or_none (arg_log_path args))
  ∧ self !! "upload_path" = Some (str_or_none (arg_upload args)).
Proof.
  unfold prepare.
  destruct (set_property _ document _ _ _) as [self1|]; [|done].
  destruct (load_args epoch_seconds args self1) as [self2|] eqn:Hargs; [|done].
  intros ->%logger_config_returns. unfold load_args in Hargs.
  destruct (get_timestamp epoch_seconds (arg_start_time args) true)
    as [st|]; [|done].
  destruct (get_timestamp epoch_seconds (arg_end_time args) true)
    as [et|]; [|done].
  injection Hargs as <-. split; [exists st, et|]; by simplify_map_eq.
Qed.

Lemma prepare_args_override_witness :
  prepare fixed_seconds (CliArgs (Some "2024-01-01") None None None)
    (VDict [("start_time", VStr "yesterday"); ("log_path", VStr "a.log")])
  = inl {[ "plugins" := VNone; "start_time" := VInt 1700000000000;
           "end_time" := VInt 0; "log_path" := VNone;
           "upload_path" := VNone ]}
  ∧ ({[ "plugins" := VNone; "start_time" := VInt 1700000000000;
        "end_time" := VInt 0; "log_path" := VNone;
        "upload_path" := VNone ]} : gmap string value) !! "log_path"
    = Some VNone.
Proof.
  assert (H : prepare fixed_seconds
                (CliArgs (Some "2024-01-01") None None None)
                (VDict [("start_time", VStr "yesterday");
                        ("log_path", VStr "a.log")])
              = inl {[ "plugins" := VNone;
                       "start_time" := VInt 1700000000000;
                       "end_time" := VInt 0; "log_path" := VNone;
                       "upload_path" := VNone ]}) by (by vm_compute).
  split; [exact H|].
  exact (proj1 (proj2 (prepare_args_override _ _ _ _ H))).
Defined.

(** ** Timestamps *)

(** X11: whatever the time reader answers, the timestamp in milliseconds
    is the timestamp in seconds times 1000, and the two calls fail alike;
    for an absent or empty time string both are 0, and the time reader is
    not consulted. *)
Theorem get_timestamp_units epoch_seconds time_str mill :
  get_timestamp epoch_seconds time_str true
  = match get_timestamp epoch_seconds time_str false with
    | inl seconds => inl (seconds * 1000)%Z
    | inr e => inr e
    end
  ∧ get_timestamp epoch_seconds None mill = inl 0%Z
  ∧ get_timestamp epoch_seconds (Some "") mill = inl 0%Z.
Proof.
  split; [|split; by destruct mill].
  unfold get_timestamp. destruct time_str as [s|]; [|done].
  repeat case_match; done.
Qed.

(** X12: [get_timestamp] raises AttributeError whatever the time reader
    answers exactly on the non-empty time strings whose number of code
    points is neither 10 nor 19, in both units: such a string is never
    read, and every other string is read or gives 0.  The length is that of
    the text in code points, not in bytes. *)
Theorem get_timestamp_length s mill :
  (∀ epoch_seconds,
      get_timestamp epoch_seconds (Some s) mill = inr AttributeError)
  ↔ s ≠ "" ∧ code_points s ≠ 10%nat ∧ code_points s ≠ 19%nat.
Proof.
  split.
  - intros H. specialize (H (λ _ _, inl 0%Z)). unfold get_timestamp in H.
    destruct (String.eqb_spec s "") as [->|Hne]; [done|].
    split; [done|]. simpl in H.
    destruct (Nat.eqb_spec (code_points s) 10); [done|].
    destruct (Nat.eqb_spec (code_points s) 19); done.
  - intros (Hne & H10 & H19) epoch_seconds. unfold get_timestamp.
    apply String.eqb_neq in Hne. rewrite Hne.
    apply Nat.eqb_neq in H10, H19. by rewrite H10, H19.
Qed.

Lemma get_timestamp_length_witness :
  ("2024-1-1" ≠ ""
   ∧ code_points "2024-1-1" ≠ 10%nat ∧ code_points "2024-1-1" ≠ 19%nat)
  ∧ get_timestamp fixed_seconds (Some "2024-1-1") true = inr AttributeError.
Proof.
  assert (H : "2024-1-1" ≠ ""
              ∧ code_points "2024-1-1" ≠ 10%nat
              ∧ code_points "2024-1-1" ≠ 19%nat) by done.
  split; [exact H|].
  exact (proj2 (get_timestamp_length "2024-1-1" true) H fixed_seconds).
Defined.

(** A date whose last digit is a full-width digit has 10 code points in 12
    bytes and is read as a date; five accented letters have 5 code points
    in 10 bytes and are not read. *)
Example get_timestamp_code_points :
  String.length "2023-11-1４" = 12%nat
  ∧ code_points "2023-11-1４" = 10%nat
  ∧ get_timestamp fixed_seconds (Some "2023-11-1４") true
    = inl 1700000000000%Z
  ∧ String.length "ééééé" = 10%nat
  ∧ code_points "ééééé" = 5%nat
  ∧ get_timestamp fixed_seconds (Some "ééééé") true = inr AttributeError.
Proof. repeat split; by vm_compute. Qed.
